(** * bencinmonitor/api: the station listing endpoint of [api.py]

    A shallow embedding of [api.py] and the properties of its query
    building, geocode caching, distance annotation, record shaping and
    limit clamping.

    Conventions of the embedding:
    - a Python [dict] is an insertion-ordered association list with unique
      keys, built only through [Dict.set] (the store [d[k] = v]);
    - Python floats are idealised as real numbers;
    - a call that can raise returns a [result]; code that talks to redis, to
      the geocoder, to the store or to the clock runs in the monad [M], whose
      state carries the redis contents and the trace of external calls;
    - functions of third-party packages ([slugify], [json], [arrow],
      [requests], [pymongo], [int], [float]) are fields of [Externals]. *)

From Stdlib Require Import String Ascii List ZArith Reals Lra Lia Bool.
From stdpp Require Import gmap strings.
Import ListNotations.

Set Warnings "-register-all,-clear-no-such-hyp".

Local Open Scope string_scope.
Local Open Scope list_scope.

(** ** Exceptions and results *)

Inductive exn : Type :=
| KeyError (k : string)
| IndexError
| TypeError
| ValueError
| AttributeError
| ExternalError (what : string).

Inductive result (A : Type) : Type :=
| Ok (a : A)
| Raise (e : exn).
Arguments Ok {A} a.
Arguments Raise {A} e.

#[global] Instance result_ret : MRet result := fun A a => Ok a.
#[global] Instance result_bind : MBind result := fun A B k r =>
  match r with
  | Ok a => k a
  | Raise e => Raise e
  end.

Fixpoint mapR {A B} (f : A -> result B) (l : list A) : result (list B) :=
  match l with
  | [] => Ok []
  | a :: l' => b ← f a; bs ← mapR f l'; Ok (b :: bs)
  end.

(** ** Python strings *)

Module Str.

(** [s.replace(a, b)] for one-character [a] and [b]. *)
Fixpoint replace (a b : ascii) (s : string) : string :=
  match s with
  | EmptyString => EmptyString
  | String c s' => String (if Ascii.eqb c a then b else c) (replace a b s')
  end.

(** [c in s] for a one-character [c]. *)
Fixpoint contains (c : ascii) (s : string) : bool :=
  match s with
  | EmptyString => false
  | String c' s' => Ascii.eqb c' c || contains c s'
  end.

(** [s.split(sep)] for a one-character [sep]: never empty, [''] gives
    [['']]. *)
Fixpoint split (sep : ascii) (s : string) : list string :=
  match s with
  | EmptyString => [EmptyString]
  | String c s' =>
      if Ascii.eqb c sep then EmptyString :: split sep s'
      else match split sep s' with
           | [] => [String c EmptyString]
           | w :: ws => String c w :: ws
           end
  end.

(** [k in l] for a list of strings. *)
Definition mem (k : string) (l : list string) : bool :=
  existsb (String.eqb k) l.

(** [l.remove(k)]: drops the first occurrence, [None] when there is
    none (Python raises [ValueError]). *)
Fixpoint remove (k : string) (l : list string) : option (list string) :=
  match l with
  | [] => None
  | x :: l' =>
      if String.eqb x k then Some l'
      else match remove k l' with
           | Some r => Some (x :: r)
           | None => None
           end
  end.

End Str.

(** ** Python dicts: insertion order, unique keys *)

Module Dict.

Definition t (V : Type) := list (string * V).

Definition keys {V} (d : t V) : list string := map fst d.

Fixpoint get {V} (d : t V) (k : string) : option V :=
  match d with
  | [] => None
  | (k', v) :: d' => if String.eqb k' k then Some v else get d' k
  end.

(** [d[k] = v]: an existing key keeps its position, a new one goes
    last. *)
Fixpoint set {V} (d : t V) (k : string) (v : V) : t V :=
  match d with
  | [] => [(k, v)]
  | (k', v') :: d' =>
      if String.eqb k' k then (k', v) :: d'
      else (k', v') :: set d' k v
  end.

(** The dict a comprehension builds from its items, left to right. *)
Definition of_items {V} (items : list (string * V)) : t V :=
  fold_left (fun d kv => set d (fst kv) (snd kv)) items [].

Definition wf {V} (d : t V) : Prop := NoDup (keys d).

End Dict.

(** ** Python values *)

Inductive value : Type :=
| VNone
| VBool (b : bool)
| VInt (z : Z)
| VFloat (r : R)
| VStr (s : string)
| VList (l : list value)
| VDict (d : list (string * value))
| VExc (msg : string).

(** Truth value of an object in a condition. *)
Definition truthy (v : value) : bool :=
  match v with
  | VNone => false
  | VBool b => b
  | VInt z => negb (Z.eqb z 0)
  | VFloat r => if Req_dec_T r 0 then false else true
  | VStr s => negb (String.eqb s "")
  | VList l => match l with [] => false | _ => true end
  | VDict d => match d with [] => false | _ => true end
  | VExc _ => true
  end.

(** [v[k]] for a string key. *)
Definition getitem (v : value) (k : string) : result value :=
  match v with
  | VDict d =>
      match Dict.get d k with
      | Some x => Ok x
      | None => Raise (KeyError k)
      end
  | _ => Raise TypeError
  end.

(** [v[0]]. *)
Definition getitem0 (v : value) : result value :=
  match v with
  | VList (x :: _) => Ok x
  | VList [] => Raise IndexError
  | VStr (String c _) => Ok (VStr (String c EmptyString))
  | VStr EmptyString => Raise IndexError
  | VDict _ => Raise (KeyError "0")
  | _ => Raise TypeError
  end.

(** ** Shaping of records (lines 116-137) *)

(** A value of the [mapping] argument of [simple_station]: a lambda, or
    anything else. *)
Inductive mapped : Type :=
| Lambda (f : value -> result value)
| Plain (v : value).

Definition unslugify_dict (dic : Dict.t value) : Dict.t value :=
  Dict.of_items
    (map (fun '(key, value) => (Str.replace "-" "_" key, value)) dic).

Definition enrich_prices (dic : value) : result value :=
  match dic with
  | VDict d =>
      let prices := unslugify_dict d in
      Ok (VList (map (fun '(k, v) =>
                        VDict [("type", VStr k); ("price", v)]) prices))
  | _ => Raise AttributeError
  end.

Definition result_of (mapping : Dict.t mapped) (key : string) (v : value)
  : result value :=
  match Dict.get mapping key with
  | Some (Lambda f) => f v
  | Some (Plain r) => Ok r
  | None => Ok v
  end.

Definition simple_station (station : Dict.t value)
    (included_keys : option (list string))
    (mapping : option (Dict.t mapped)) : result (Dict.t value) :=
  let include_keys := match included_keys with None => [] | Some l => l end in
  let mapping := match mapping with None => [] | Some m => m end in
  items ← mapR (fun '(key, v) => r ← result_of mapping key v; Ok (key, r))
               (List.filter (fun '(key, _) =>
                               Str.contains "." key || Str.mem key include_keys)
                            station);
  Ok (Dict.of_items items).

(** The test of line 131 on a key, and the [mapping] that line 129 leaves. *)
Definition kept (included_keys : option (list string)) (key : string) : bool :=
  Str.contains "." key ||
  Str.mem key (match included_keys with None => [] | Some l => l end).

Definition transforms (mapping : option (Dict.t mapped)) : Dict.t mapped :=
  match mapping with None => [] | Some m => m end.

(** ** The world outside [api.py] *)

(** What the imported packages and the built-ins compute. A [None] of
    [py_int] or [py_float] is Python's [ValueError]. *)
Class Externals : Type := {
  (** [slugify(address, max_length=100)] *)
  slugify : string -> string;
  (** [int(s)] and [float(s)] of a string *)
  py_int : string -> option Z;
  py_float : string -> option R;
  (** [arrow.get(x).isoformat()] *)
  isoformat : value -> result value;
  (** [json.dumps] and [json.loads] after [bytes.decode('utf8')] *)
  dumps : value -> string;
  loads : string -> result value;
  (** [requests_get(url, {'sensor': 'false', 'address': address}).json()] *)
  geocoder : string -> result value;
  (** [mongo.db.stations.find(where, projection).limit(n)], iterated *)
  store_find : value -> value -> Z -> result (list (Dict.t value));
  (** [haversine(point1, point2)] of the haversine package, kilometres *)
  haversine : list value -> list value -> result R;
  (** the reading of the n-th call of [time()] *)
  clock : nat -> R
}.

(** One call to an outside service. *)
Inductive event : Type :=
| RedisGet (key : string)
| RedisExpire (key : string) (ttl : Z)
| RedisSet (key : string) (val : string) (ttl : Z)
| GeocoderGet (address : string)
| StoreFind (where_ projection : value) (limit : Z)
| ClockRead.

(** The redis database maps a key to its bytes and its time to live in
    seconds; [trace] lists the outside calls made so far, oldest first. *)
Record state : Type := State {
  redis : gmap string (string * Z);
  trace : list event
}.

Definition M (A : Type) : Type := state -> result A * state.

#[global] Instance M_ret : MRet M := fun A a s => (Ok a, s).
#[global] Instance M_bind : MBind M := fun A B k m s =>
  match m s with
  | (Ok a, s') => k a s'
  | (Raise e, s') => (Raise e, s')
  end.

Definition lift {A} (r : result A) : M A := fun s => (r, s).

Definition emit (e : event) (s : state) : state :=
  State (redis s) (trace s ++ [e]).

(** [try: body except IndexError: handler] *)
Definition try_except_IndexError {A} (body handler : M A) : M A := fun s =>
  match body s with
  | (Raise IndexError, s') => handler s'
  | r => r
  end.

(** How many calls of the trace satisfy [p]. *)
Definition count_events (p : event -> bool) (tr : list event) : nat :=
  length (List.filter p tr).

Definition is_geocoder_call (e : event) : bool :=
  match e with GeocoderGet _ => true | _ => false end.
Definition is_redis_set (e : event) : bool :=
  match e with RedisSet _ _ _ => true | _ => false end.
Definition is_redis_expire (e : event) : bool :=
  match e with RedisExpire _ _ => true | _ => false end.
Definition is_store_find (e : event) : bool :=
  match e with StoreFind _ _ _ => true | _ => false end.
Definition is_time (e : event) : bool :=
  match e with ClockRead => true | _ => false end.

(** A call that is not a query of the store, and a program that makes
    only such calls. *)
Definition no_find (e : event) : Prop := is_store_find e = false.

Definition quiet {A} (m : M A) : Prop :=
  forall s, exists evs,
    trace (snd (m s)) = trace s ++ evs /\ Forall no_find evs.

(** The outside calls that running [m] from [s] adds to the trace. *)
Definition calls {A} (m : M A) (s : state) : list event :=
  drop (length (trace s)) (trace (snd (m s))).

(** ** The application (lines 18-24 and 34-147) *)

(** [getenv(name, default)] *)
Definition getenv (environ : gmap string string) (name default : string)
  : string :=
  match environ !! name with
  | Some v => v
  | None => default
  end.

(** The entries of [app.config] that [api.py] sets from the environment. *)
Definition app_config (environ : gmap string string) : gmap string string :=
  <["DISTANCE_LIMIT" := getenv environ "DISTANCE_LIMIT" "50000"]>
  (<["DISTANCE_DEFAULT" := getenv environ "DISTANCE_DEFAULT" "10000"]>
  (<["GOOGLE_GEOCODER_TIMEOUT" :=
       getenv environ "GOOGLE_GEOCODER_TIMEOUT" "0.10"]>
  (<["LIST_DEFAULT_COUNT" := getenv environ "LIST_DEFAULT_COUNT" "10"]>
  (<["LIST_LIMIT" := getenv environ "LIST_LIMIT" "50"]>
  (<["REDIS_URL" := getenv environ "REDIS_URL" "redis://@localhost:6379/1"]>
  (<["MONGO_URI" :=
       getenv environ "MONGO_URI"
         (getenv environ "MONGO_URL" "mongodb://localhost:27017/bm")]>
   ∅)))))).

(** [tuple(v)] *)
Definition to_tuple (v : value) : result (list value) :=
  match v with
  | VList l => Ok l
  | VDict d => Ok (map (fun kv => VStr (fst kv)) d)
  | VStr s => Ok (map (fun c => VStr (String c EmptyString))
                      (list_ascii_of_string s))
  | _ => Raise TypeError
  end.

Section App.

Context `{Externals}.

(** [app.config] and [request.args] of the request being served. *)
Variable config : gmap string string.
Variable args : list (string * string).

(** [request.args.get(name)]: the first value given for [name]. *)
Definition args_get (name : string) : option string := Dict.get args name.

(** [int(x)] where [x] is a string or [None]. *)
Definition int_of (x : option string) : result Z :=
  match x with
  | None => Raise TypeError
  | Some s =>
      match py_int s with
      | Some z => Ok z
      | None => Raise ValueError
      end
  end.

Definition float_of (s : string) : result R :=
  match py_float s with
  | Some r => Ok r
  | None => Raise ValueError
  end.

Definition time : M R := fun s =>
  (Ok (clock (count_events is_time (trace s))), emit ClockRead s).

Definition redis_get (key : string) : M (option string) := fun s =>
  (Ok (fst <$> redis s !! key), emit (RedisGet key) s).

Definition redis_expire (key : string) (ttl : Z) : M unit := fun s =>
  (Ok tt,
   State (alter (fun e => (fst e, ttl)) key (redis s))
         (trace s ++ [RedisExpire key ttl])).

Definition redis_set (key val : string) (ttl : Z) : M unit := fun s =>
  (Ok tt,
   State (<[key := (val, ttl)]> (redis s))
         (trace s ++ [RedisSet key val ttl])).

Definition requests_get (address : string) : M value := fun s =>
  (geocoder address, emit (GeocoderGet address) s).

Definition find (where_ projection : value) (limit : Z)
  : M (list (Dict.t value)) := fun s =>
  (store_find where_ projection limit,
   emit (StoreFind where_ projection limit) s).

(** Lines 140-143. *)
Definition safe_limit (key default_key query_param : string) : result Z :=
  limit ← int_of (match args_get query_param with
                  | Some v => Some v
                  | None => config !! default_key
                  end);
  ceiling ← int_of (config !! key);
  if (limit <? ceiling)%Z then Ok limit else Ok ceiling.

(** Lines 146-147. *)
Definition safe_distance : result Z :=
  safe_limit "DISTANCE_LIMIT" "DISTANCE_DEFAULT" "maxDistance".

(** Lines 98-99: [raw_location], the [[lng, lat]] of the first result. *)
Definition raw_location_of (reply : value) : result value :=
  results ← getitem reply "results";
  first ← getitem0 results;
  geometry ← getitem first "geometry";
  location ← getitem geometry "location";
  lng ← getitem location "lng";
  lat ← getitem location "lat";
  Ok (VList [lng; lat]).

(** Lines 80-103. The parameter [http_timeout] is not used by the body. *)
Definition geocode (address : string) (cache : bool) (http_timeout : R)
    (expire_ttl : Z) : M value :=
  let key := ("address:" ++ slugify address)%string in
  let fetch : M value :=
    reply ← requests_get address;
    try_except_IndexError
      (raw_location ← lift (raw_location_of reply);
       _ ← (if cache then redis_set key (dumps raw_location) expire_ttl
            else mret tt);
       mret raw_location)
      (mret (VExc ("Can't get location " ++ address ++ ".")%string))
  in
  if cache then
    cache_value ← redis_get key;
    match cache_value with
    | Some v => _ ← redis_expire key expire_ttl; lift (loads v)
    | None => fetch
    end
  else fetch.

(** Lines 106-113. *)
Definition compute_distance (station : Dict.t value) (at_ : value)
  : result (Dict.t value) :=
  loc ← getitem (VDict station) "loc";
  coordinates ← getitem loc "coordinates";
  point1 ← to_tuple coordinates;
  point2 ← to_tuple at_;
  km ← haversine point1 point2;
  Ok (Dict.set station "distance" (VFloat (km * 1000)%R)).

(** Line 37. *)
Definition base_keys : list string :=
  ["key"; "loc"; "address"; "updated_at"; "prices"; "scraped_url"].

(** Line 41: ['prices.' + p.replace('_', '-')]. *)
Definition price_field (p : string) : string :=
  ("prices." ++ Str.replace "_" "-" p)%string.

(** Lines 37-42: the fields asked of the store. *)
Definition station_keys : result (list string) :=
  match args_get "prices" with
  | Some prices =>
      if truthy (VStr prices) then
        let keys :=
          base_keys ++ map price_field (Str.split "," prices) in
        match Str.remove "prices" keys with
        | Some keys' => Ok keys'
        | None => Raise ValueError
        end
      else Ok base_keys
  | None => Ok base_keys
  end.

(** Lines 48-50. The test [at is []] of line 50 compares the list with a
    fresh one and is never true, so [at] stays as line 49 leaves it. *)
Definition parse_at : result value :=
  let raw_at := match args_get "at" with Some v => v | None => "" end in
  at_ ← mapR float_of
        (List.filter (fun n => negb (String.eqb n ""))
                     (Str.split "," raw_at));
  Ok (VList (map VFloat at_)).

(** Lines 47-54: the reference point. *)
Definition reference_point : M value :=
  at_ ← lift parse_at;
  match args_get "near" with
  | Some near =>
      if truthy (VStr near) then geocode near true (1 / 10)%R 86400
      else mret at_
  | None => mret at_
  end.

(** Lines 45 and 57-59: the filter. *)
Definition base_where : Dict.t value := [("company", VStr "petrol")].

Definition build_where (at_ : value) : result (Dict.t value) :=
  if truthy at_ then
    max_distance ← safe_distance;
    Ok (Dict.set base_where "loc"
          (VDict [("$near",
                   VDict [("$geometry",
                           VDict [("type", VStr "Point");
                                  ("coordinates", at_)]);
                          ("$maxDistance", VInt max_distance)])]))
  else Ok base_where.

(** Lines 63-66: the transforms. *)
Definition station_mapping : Dict.t mapped :=
  [("prices", Lambda enrich_prices); ("updated_at", Lambda isoformat)].

(** Line 67: [{key: 1 for key in keys}]. *)
Definition projection_of (keys : list string) : Dict.t value :=
  Dict.of_items (map (fun key => (key, VInt 1)) keys).

(** Lines 63-70: the records of the store, shaped and, with a reference
    point, annotated. *)
Definition stations_of (included_keys : list string) (at_ : value)
    (records : list (Dict.t value)) : result (list (Dict.t value)) :=
  stations ← mapR (fun station =>
                     simple_station station (Some included_keys)
                                    (Some station_mapping))
                  records;
  if truthy at_
  then mapR (fun station => compute_distance station at_) stations
  else Ok stations.

(** Lines 35-77. *)
Definition list_stations : M value :=
  start ← time;
  keys ← lift station_keys;
  at_ ← reference_point;
  where_ ← lift (build_where at_);
  let included_keys := keys ++ ["prices"; "distance"] in
  limit ← lift (safe_limit "LIST_LIMIT" "LIST_DEFAULT_COUNT" "limit");
  records ← find (VDict where_) (VDict (projection_of keys)) limit;
  stations ← lift (stations_of included_keys at_ records);
  stop ← time;
  mret (VDict [("status", VStr "ok");
               ("stations", VList (map VDict stations));
               ("executed_in", VFloat (stop - start)%R)]).

End App.

(** ** The haversine formula *)

(** The great-circle distance that the claim on [compute_distance] names:
    the haversine formula on a sphere of the Earth's mean radius, for two
    points given by latitude and longitude in decimal degrees; kilometres. *)
Definition radians (deg : R) : R := (deg * PI / 180)%R.

Definition AVG_EARTH_RADIUS : R := 6371%R.

Definition standard_haversine_km (lat1 lng1 lat2 lng2 : R) : R :=
  let lat := (radians lat2 - radians lat1)%R in
  let lng := (radians lng2 - radians lng1)%R in
  let d := ((sin (lat * / 2))² +
            cos (radians lat1) * cos (radians lat2) * (sin (lng * / 2))²)%R in
  (2 * AVG_EARTH_RADIUS * asin (sqrt d))%R.

(** The haversine package reads a point as (latitude, longitude). *)
Definition haversine_contract `{Externals} : Prop :=
  forall lat1 lng1 lat2 lng2 : R,
    haversine [VFloat lat1; VFloat lng1] [VFloat lat2; VFloat lng2] =
    Ok (standard_haversine_km lat1 lng1 lat2 lng2).

(** ** What the store may return *)

(** The top-level field of a projected path: [prices] for [prices.diesel]. *)
Definition top_level (path : string) : string :=
  match Str.split "." path with
  | [] => path
  | field :: _ => field
  end.

(** A record answers a projection when each of its fields is [_id] or the
    top-level field of a projected path. *)
Definition answers_projection (projection record : Dict.t value) : Prop :=
  forall k, In k (Dict.keys record) ->
    k = "_id" \/ In k (map top_level (Dict.keys projection)).

Definition store_projects `{Externals} : Prop :=
  forall where_ projection limit records,
    store_find where_ (VDict projection) limit = Ok records ->
    Forall (answers_projection projection) records.

(** ** A sample world *)

(** Small stand-ins for the packages and services, enough to run the
    endpoint on the examples below: one known address, one station. *)
Module Sample.

Definition digit (c : ascii) : option Z :=
  let n := nat_of_ascii c in
  if (48 <=? n)%nat && (n <=? 57)%nat then Some (Z.of_nat (n - 48))
  else None.

Fixpoint digits (s : string) (acc : Z) : option Z :=
  match s with
  | EmptyString => Some acc
  | String c s' =>
      match digit c with
      | Some d => digits s' (10 * acc + d)%Z
      | None => None
      end
  end.

(** Decimal integers with an optional minus sign. *)
Definition int (s : string) : option Z :=
  match s with
  | EmptyString => None
  | String "-" EmptyString => None
  | String "-" s' => option_map Z.opp (digits s' 0)
  | _ => digits s 0
  end.

(** Decimal numbers with an optional fraction. *)
Definition float (s : string) : option R :=
  match Str.split "." s with
  | [i] => option_map IZR (int i)
  | [i; f] =>
      option_map (fun z => (IZR z / 10 ^ String.length f)%R)
                 (int (i ++ f)%string)
  | _ => None
  end.

Definition ljubljana : value := VList [VFloat 14.5; VFloat 46.05].

Definition google (address : string) : result value :=
  if String.eqb address "Ljubljana" then
    Ok (VDict
          [("results",
            VList [VDict
                     [("geometry",
                       VDict [("location",
                               VDict [("lat", VFloat 46.05);
                                      ("lng", VFloat 14.5)])])]]);
           ("status", VStr "OK")])
  else Ok (VDict [("results", VList []); ("status", VStr "ZERO_RESULTS")]).

Definition station : Dict.t value :=
  [("_id", VStr "57a1");
   ("key", VStr "petrol-ljubljana-1");
   ("loc", VDict [("type", VStr "Point");
                  ("coordinates", VList [VFloat 14.5; VFloat 46.05])]);
   ("address", VStr "Celovska 1");
   ("updated_at", VStr "2016-08-01T10:00:00+00:00");
   ("prices", VDict [("diesel", VFloat 1.05); ("super-95", VFloat 1.2)]);
   ("scraped_url", VStr "http://petrol.si/1")].

(** The store holds [station] and returns the fields that the
    projection names, with [_id]. *)
Definition project (projection : value) (record : Dict.t value)
  : Dict.t value :=
  match projection with
  | VDict p =>
      List.filter (fun '(k, _) =>
                     String.eqb k "_id" ||
                     Str.mem k (map top_level (Dict.keys p)))
                  record
  | _ => record
  end.

Definition find (where_ projection : value) (limit : Z)
  : result (list (Dict.t value)) :=
  Ok (firstn (Z.to_nat limit) [project projection station]).

Definition by_latitude (point1 point2 : list value) : result R :=
  match point1, point2 with
  | [VFloat lat1; VFloat lng1], [VFloat lat2; VFloat lng2] =>
      Ok (standard_haversine_km lat1 lng1 lat2 lng2)
  | _, _ => Raise TypeError
  end.

Definition world : Externals := {|
  slugify := fun address => address;
  py_int := int;
  py_float := float;
  isoformat := fun v => Ok v;
  dumps := fun _ => "[14.5, 46.05]";
  loads := fun s =>
    if String.eqb s "[14.5, 46.05]" then Ok ljubljana else Raise ValueError;
  geocoder := google;
  store_find := find;
  haversine := by_latitude;
  clock := INR
|}.

Definition config : gmap string string := app_config ∅.

Definition idle : state := State ∅ [].

End Sample.

(** ** Further notions for the properties below *)

(** A program that leaves every redis entry but the one at [key] as it
    is. *)
Definition touches_only {A} (key : string) (m : M A) : Prop :=
  forall s k, k <> key -> redis (snd (m s)) !! k = redis s !! k.

(** The fields a record of the response may carry for the asked [keys]. *)
Definition response_field (keys : list string) (k : string) : Prop :=
  Str.contains "." k = true \/ k ∈ keys \/ k = "prices" \/ k = "distance".

(** A string of commas only. *)
Fixpoint only_commas (s : string) : bool :=
  match s with
  | EmptyString => true
  | String c s' => Ascii.eqb c "," && only_commas s'
  end.

(** A second sample world, whose slugs fold upper-case letters to lower
    case, so that two spellings of an address share a cache entry. *)
Module Folded.

Definition lower (c : ascii) : ascii :=
  let n := nat_of_ascii c in
  if (65 <=? n)%nat && (n <=? 90)%nat then ascii_of_nat (n + 32) else c.

Fixpoint slug (s : string) : string :=
  match s with
  | EmptyString => EmptyString
  | String c s' => String (lower c) (slug s')
  end.

Definition world : Externals := {|
  slugify := slug;
  py_int := Sample.int;
  py_float := Sample.float;
  isoformat := fun v => Ok v;
  dumps := fun _ => "[14.5, 46.05]";
  loads := fun s =>
    if String.eqb s "[14.5, 46.05]" then Ok Sample.ljubljana
    else Raise ValueError;
  geocoder := Sample.google;
  store_find := Sample.find;
  haversine := Sample.by_latitude;
  clock := INR
|}.

End Folded.

(** * Properties *)

(** ** Dicts *)

Section DictFacts.

Context {V : Type}.
Implicit Types (d : Dict.t V) (k : string) (v : V).

Lemma set_fresh d k v :
  k ∉ Dict.keys d -> Dict.set d k v = d ++ [(k, v)].
Proof.
  induction d as [|[k' v'] d IH]; simpl; intros Hk; [reflexivity|].
  apply not_elem_of_cons in Hk as [Hne Hk].
  destruct (String.eqb_spec k' k) as [->|_]; [congruence|].
  f_equal. now apply IH.
Qed.

Lemma keys_set_in d k v k' :
  k' ∈ Dict.keys (Dict.set d k v) <-> k' = k \/ k' ∈ Dict.keys d.
Proof.
  induction d as [|[k0 v0] d IH]; simpl.
  - set_solver.
  - destruct (String.eqb_spec k0 k) as [->|Hne]; simpl; set_solver.
Qed.

Lemma get_set_eq d k v : Dict.get (Dict.set d k v) k = Some v.
Proof.
  induction d as [|[k0 v0] d IH]; simpl.
  - now rewrite String.eqb_refl.
  - destruct (String.eqb_spec k0 k) as [->|Hne]; simpl.
    + now rewrite String.eqb_refl.
    + destruct (String.eqb_spec k0 k); [contradiction|exact IH].
Qed.

Lemma get_set_ne d k v k' :
  k' <> k -> Dict.get (Dict.set d k v) k' = Dict.get d k'.
Proof.
  intros Hne. induction d as [|[k0 v0] d IH]; simpl.
  - destruct (String.eqb_spec k k'); [congruence|reflexivity].
  - destruct (String.eqb_spec k0 k) as [->|Hne0]; simpl.
    + destruct (String.eqb_spec k k'); [congruence|reflexivity].
    + destruct (String.eqb_spec k0 k'); [reflexivity|exact IH].
Qed.

Lemma get_in_keys d k v : Dict.get d k = Some v -> k ∈ Dict.keys d.
Proof.
  induction d as [|[k0 v0] d IH]; simpl; [discriminate|].
  destruct (String.eqb_spec k0 k) as [->|Hne]; intros Hg.
  - apply elem_of_cons. now left.
  - apply elem_of_cons. right. now apply IH.
Qed.

Lemma get_none_keys d k : Dict.get d k = None <-> k ∉ Dict.keys d.
Proof.
  induction d as [|[k0 v0] d IH]; simpl; [set_solver|].
  destruct (String.eqb_spec k0 k) as [->|Hne].
  - split; [discriminate|]. set_solver.
  - rewrite IH. set_solver.
Qed.

Lemma get_in_items d k v :
  Dict.get d k = Some v -> (k, v) ∈ d.
Proof.
  induction d as [|[k0 v0] d IH]; simpl; [discriminate|].
  destruct (String.eqb_spec k0 k) as [->|Hne]; intros Hg.
  - injection Hg as ->. apply elem_of_cons. now left.
  - apply elem_of_cons. right. now apply IH.
Qed.

Lemma in_items_get d k v :
  Dict.wf d -> (k, v) ∈ d -> Dict.get d k = Some v.
Proof.
  unfold Dict.wf.
  induction d as [|[k0 v0] d IH]; simpl; intros Hwf Hin; [set_solver|].
  apply NoDup_cons in Hwf as [Hnin Hwf].
  apply elem_of_cons in Hin as [Heq|Hin].
  - injection Heq as -> ->. now rewrite String.eqb_refl.
  - destruct (String.eqb_spec k0 k) as [->|Hne]; [|now apply IH].
    exfalso. apply Hnin. change k with (fst (k, v)).
    now apply list_elem_of_fmap_2.
Qed.

Lemma wf_set d k v : Dict.wf d -> Dict.wf (Dict.set d k v).
Proof.
  unfold Dict.wf. induction d as [|[k0 v0] d IH]; simpl; intros Hwf.
  - apply NoDup_singleton.
  - apply NoDup_cons in Hwf as [Hnin Hwf].
    destruct (String.eqb_spec k0 k) as [->|Hne]; simpl.
    + now apply NoDup_cons.
    + apply NoDup_cons. split; [|now apply IH].
      rewrite keys_set_in. intros [?|?]; congruence.
Qed.

Lemma fold_set_fresh (items : list (string * V)) d :
  NoDup (Dict.keys d ++ map fst items) ->
  fold_left (fun d kv => Dict.set d (fst kv) (snd kv)) items d = d ++ items.
Proof.
  revert d. induction items as [|[k v] items IH]; simpl; intros d Hnd.
  - now rewrite app_nil_r.
  - rewrite set_fresh.
    + rewrite IH.
      * now rewrite <- app_assoc.
      * unfold Dict.keys in *. rewrite map_app. simpl.
        rewrite <- app_assoc. exact Hnd.
    + apply NoDup_app in Hnd as (_ & Hnd & _).
      intros Hin. apply (Hnd _ Hin). apply elem_of_cons. now left.
Qed.

(** A comprehension whose keys are pairwise distinct builds its items,
    in order. *)
Lemma of_items_nodup (items : list (string * V)) :
  NoDup (map fst items) -> Dict.of_items items = items.
Proof. intros Hnd. unfold Dict.of_items. now rewrite fold_set_fresh. Qed.

Lemma fold_set_keys (items : list (string * V)) d k :
  k ∈ Dict.keys
        (fold_left (fun d kv => Dict.set d (fst kv) (snd kv)) items d)
  <-> k ∈ Dict.keys d \/ k ∈ map fst items.
Proof.
  revert d. induction items as [|[k0 v0] items IH]; simpl; intros d.
  - set_solver.
  - rewrite IH, keys_set_in. set_solver.
Qed.

Lemma of_items_keys (items : list (string * V)) k :
  k ∈ Dict.keys (Dict.of_items items) <-> k ∈ map fst items.
Proof. unfold Dict.of_items. rewrite fold_set_keys. set_solver. Qed.

Lemma fold_set_wf (items : list (string * V)) d :
  Dict.wf d ->
  Dict.wf (fold_left (fun d kv => Dict.set d (fst kv) (snd kv)) items d).
Proof.
  revert d. induction items as [|[k0 v0] items IH]; simpl; intros d Hwf.
  - exact Hwf.
  - apply IH. now apply wf_set.
Qed.

Lemma of_items_wf (items : list (string * V)) : Dict.wf (Dict.of_items items).
Proof. apply fold_set_wf. apply NoDup_nil_2. Qed.

End DictFacts.

(** ** Results *)

Lemma mapR_Forall2 {A B} (f : A -> result B) (l : list A) (l' : list B) :
  mapR f l = Ok l' -> Forall2 (fun a b => f a = Ok b) l l'.
Proof.
  revert l'. induction l as [|a l IH]; simpl; intros l' Hm.
  - injection Hm as <-. constructor.
  - destruct (f a) as [b|e] eqn:Hfa; simpl in Hm; [|discriminate].
    destruct (mapR f l) as [bs|e] eqn:Hl; simpl in Hm; [|discriminate].
    injection Hm as <-. constructor; [exact Hfa|now apply IH].
Qed.

Lemma Forall2_mapR {A B} (f : A -> result B) (l : list A) (l' : list B) :
  Forall2 (fun a b => f a = Ok b) l l' -> mapR f l = Ok l'.
Proof.
  induction 1 as [|a b l l' Hab _ IH]; simpl; [reflexivity|].
  now rewrite Hab, IH.
Qed.

(** ** Strings *)

Lemma replace_absent (a b : ascii) (s : string) :
  a <> b -> Str.contains a (Str.replace a b s) = false.
Proof.
  intros Hab. induction s as [|c s IH]; simpl; [reflexivity|].
  rewrite IH, orb_false_r.
  destruct (Ascii.eqb_spec c a) as [->|Hca].
  - apply Ascii.eqb_neq. congruence.
  - now apply Ascii.eqb_neq.
Qed.

Lemma mem_elem_of (k : string) (l : list string) :
  Str.mem k l = true <-> k ∈ l.
Proof.
  unfold Str.mem. rewrite existsb_exists, list_elem_of_In. split.
  - intros (x & Hin & Heq). apply String.eqb_eq in Heq. now subst.
  - intros Hin. exists k. split; [exact Hin|apply String.eqb_refl].
Qed.

(** ** Shaping of records *)

Section Shaping.

Implicit Types (station out : Dict.t value).

Lemma filter_keys_sub {V} (p : string * V -> bool) (d : Dict.t V) k :
  k ∈ Dict.keys (List.filter p d) -> k ∈ Dict.keys d.
Proof.
  induction d as [|kv d IH]; simpl; [trivial|].
  destruct (p kv); simpl; rewrite !elem_of_cons; tauto.
Qed.

Lemma filter_wf {V} (p : string * V -> bool) (d : Dict.t V) :
  Dict.wf d -> Dict.wf (List.filter p d).
Proof.
  unfold Dict.wf. induction d as [|kv d IH]; simpl; intros Hwf; [exact Hwf|].
  apply NoDup_cons in Hwf as [Hnin Hwf].
  destruct (p kv); simpl; [|now apply IH].
  apply NoDup_cons. split; [|now apply IH].
  intros Hin. apply Hnin. now apply filter_keys_sub in Hin.
Qed.

Lemma transformed_items (mapping : Dict.t mapped) (l items : list (string * value)) :
  mapR (fun '(key, v) => r ← result_of mapping key v; Ok (key, r)) l
    = Ok items ->
  Forall2 (fun kv kr => fst kr = fst kv /\
                        result_of mapping (fst kv) (snd kv) = Ok (snd kr))
          l items.
Proof.
  intros Hm. apply mapR_Forall2 in Hm.
  induction Hm as [|[k v] [k' r] l items Hkv _ IH]; constructor; [|exact IH].
  simpl. destruct (result_of mapping k v) as [r0|e]; simpl in Hkv;
    [|discriminate].
  injection Hkv as <- <-. split; reflexivity.
Qed.

Lemma transformed_keys (mapping : Dict.t mapped) (l items : list (string * value)) :
  Forall2 (fun kv kr => fst kr = fst kv /\
                        result_of mapping (fst kv) (snd kv) = Ok (snd kr))
          l items ->
  Dict.keys items = Dict.keys l.
Proof.
  induction 1 as [|kv kr l items [Hk _] _ IH]; simpl; [reflexivity|].
  now rewrite Hk, IH.
Qed.

(** The record [simple_station] returns: the kept fields of the station,
    each with its transformed value. *)
Lemma simple_station_fields station included_keys mapping out :
  Dict.wf station ->
  simple_station station included_keys mapping = Ok out ->
  Dict.wf out /\
  forall key r,
    Dict.get out key = Some r <->
    exists v, Dict.get station key = Some v /\
              kept included_keys key = true /\
              result_of (transforms mapping) key v = Ok r.
Proof.
  intros Hwf Hs. unfold simple_station in Hs.
  match type of Hs with
  | context [mapR ?f ?l] => destruct (mapR f l) as [items|e] eqn:Hm
  end; simpl in Hs; [|discriminate].
  injection Hs as <-.
  apply transformed_items in Hm.
  pose proof (transformed_keys _ _ _ Hm) as Hkeys.
  pose proof (filter_wf (fun '(key, _) =>
    Str.contains "." key ||
    Str.mem key (match included_keys with None => [] | Some l => l end))
    station Hwf) as Hwf'.
  assert (Hwfi : Dict.wf items) by (unfold Dict.wf; now rewrite Hkeys).
  rewrite of_items_nodup by exact Hwfi.
  split; [exact Hwfi|].
  intros key r. split.
  - intros Hg. apply get_in_items in Hg.
    apply list_elem_of_lookup in Hg as [i Hi].
    destruct (Forall2_lookup_r _ _ _ _ _ Hm Hi) as ([k v] & Hl & Hk & Hr).
    simpl in Hk, Hr. subst k.
    apply list_elem_of_lookup_2 in Hl.
    apply list_elem_of_In, filter_In in Hl as [Hin Hkeep].
    exists v. split; [|split; assumption].
    apply in_items_get; [exact Hwf|now apply list_elem_of_In].
  - intros (v & Hg & Hkeep & Hr).
    apply get_in_items in Hg.
    assert (Hin : (key, v) ∈ List.filter (fun '(key, _) =>
      Str.contains "." key ||
      Str.mem key (match included_keys with None => [] | Some l => l end))
      station).
    { apply list_elem_of_In, filter_In. split;
        [now apply list_elem_of_In|exact Hkeep]. }
    apply list_elem_of_lookup in Hin as [i Hi].
    destruct (Forall2_lookup_l _ _ _ _ _ Hm Hi) as ([k r'] & Hl & Hk & Hr').
    simpl in Hk, Hr'. subst k.
    unfold transforms in Hr. rewrite Hr in Hr'. injection Hr' as <-.
    apply in_items_get; [exact Hwfi|].
    now apply list_elem_of_lookup_2 in Hl.
Qed.

End Shaping.

(** Pairwise distinct keys of a literal dict. *)
Ltac distinct_keys :=
  unfold Dict.wf; simpl;
  repeat (apply NoDup_cons; split;
          [rewrite ?elem_of_cons, ?elem_of_nil; intuition discriminate|]);
  apply NoDup_nil_2.

(** ** Price enrichment (C8) *)

Lemma unslugify_distinct (d : Dict.t value) :
  NoDup (map (Str.replace "-" "_") (Dict.keys d)) ->
  unslugify_dict d =
  map (fun '(key, v) => (Str.replace "-" "_" key, v)) d.
Proof.
  intros Hnd. unfold unslugify_dict. apply of_items_nodup.
  rewrite map_map. unfold Dict.keys in Hnd. rewrite map_map in Hnd.
  erewrite map_ext; [exact Hnd|]. now intros [k v].
Qed.

(** C8, as the code has it: a [prices] mapping whose keys stay pairwise
    distinct once their hyphens are rewritten to underscores is turned into
    one [{type, price}] object per entry, in the order of the mapping, with
    hyphen-free types; [{"super-95": 1.50}] gives
    [[{"type": "super_95", "price": 1.50}]]. *)
Theorem enrich_prices_one_per_entry (d : Dict.t value) :
  NoDup (map (Str.replace "-" "_") (Dict.keys d)) ->
  enrich_prices (VDict d) =
    Ok (VList (map (fun '(k, v) =>
                      VDict [("type", VStr (Str.replace "-" "_" k));
                             ("price", v)]) d))
  /\ (forall k, Str.contains "-" (Str.replace "-" "_" k) = false)
  /\ enrich_prices (VDict [("super-95", VFloat 1.5)]) =
       Ok (VList [VDict [("type", VStr "super_95"); ("price", VFloat 1.5)]]).
Proof.
  intros Hnd. split; [|split].
  - unfold enrich_prices. rewrite unslugify_distinct by exact Hnd.
    rewrite map_map. do 2 f_equal. apply map_ext. now intros [k v].
  - intros k. now apply replace_absent.
  - reflexivity.
Qed.

Lemma enrich_prices_one_per_entry_witness :
  NoDup (map (Str.replace "-" "_")
             (Dict.keys [("diesel", VFloat 1.05); ("super-95", VFloat 1.2)]))
  /\ enrich_prices (VDict [("diesel", VFloat 1.05); ("super-95", VFloat 1.2)])
     = Ok (VList [VDict [("type", VStr "diesel"); ("price", VFloat 1.05)];
                  VDict [("type", VStr "super_95"); ("price", VFloat 1.2)]]).
Proof.
  assert (Hnd : NoDup (map (Str.replace "-" "_")
             (Dict.keys [("diesel", VFloat 1.05); ("super-95", VFloat 1.2)]))).
  { distinct_keys. }
  split; [exact Hnd|].
  exact (proj1 (enrich_prices_one_per_entry _ Hnd)).
Defined.

(** C8 as stated fails: two entries whose keys differ only by hyphen
    against underscore end up in one object, the value of the later one. *)
Lemma enrich_prices_merges_clashing_keys :
  Dict.wf [("super-95", VFloat 1.5); ("super_95", VFloat 1.6)] /\
  enrich_prices (VDict [("super-95", VFloat 1.5); ("super_95", VFloat 1.6)])
  = Ok (VList [VDict [("type", VStr "super_95"); ("price", VFloat 1.6)]]).
Proof.
  split; [distinct_keys|reflexivity].
Qed.

(** ** Dotted keys in [simple_station] *)

Lemma path_key_untransformed `{Externals} (key : string) (v : value) :
  Str.contains "." key = true ->
  result_of station_mapping key v = Ok v.
Proof.
  intros Hdot. unfold result_of, station_mapping. cbn [Dict.get].
  destruct (String.eqb_spec "prices" key) as [<-|_]; [discriminate|].
  destruct (String.eqb_spec "updated_at" key) as [<-|_]; [discriminate|].
  reflexivity.
Qed.

(** X24. The test of line 131 lets through every field whose key
    contains a dot, whatever [included_keys] holds, and the transforms of
    [list_stations] leave its value as it is. This is about the function
    on a record that has such a literal key; a store that answers the
    projection returns none. *)
Theorem simple_station_keeps_path_keys `{Externals}
    (station out : Dict.t value) (included_keys : option (list string))
    (key : string) (v : value) :
  Dict.wf station ->
  Str.contains "." key = true ->
  Dict.get station key = Some v ->
  simple_station station included_keys (Some station_mapping) = Ok out ->
  Dict.get out key = Some v.
Proof.
  intros Hwf Hdot Hget Hs.
  destruct (simple_station_fields _ _ _ _ Hwf Hs) as [_ Hfields].
  apply Hfields. exists v. split; [exact Hget|]. split.
  - unfold kept. now rewrite Hdot.
  - now apply path_key_untransformed.
Qed.

Lemma simple_station_keeps_path_keys_witness :
  let station := [("key", VStr "s1"); ("prices.diesel", VFloat 1.05)] in
  let out := [("key", VStr "s1"); ("prices.diesel", VFloat 1.05)] in
  Dict.wf station /\
  Str.contains "." "prices.diesel" = true /\
  Dict.get station "prices.diesel" = Some (VFloat 1.05) /\
  simple_station station (Some (base_keys ++ ["prices"; "distance"]))
                 (Some (@station_mapping Sample.world)) = Ok out /\
  Dict.get out "prices.diesel" = Some (VFloat 1.05).
Proof.
  intros station out.
  assert (Hwf : Dict.wf station).
  { distinct_keys. }
  assert (Hs : simple_station station
                 (Some (base_keys ++ ["prices"; "distance"]))
                 (Some (@station_mapping Sample.world)) = Ok out)
    by reflexivity.
  refine (conj Hwf (conj eq_refl (conj eq_refl (conj Hs _)))).
  exact (@simple_station_keeps_path_keys Sample.world station out _
           "prices.diesel" (VFloat 1.05) Hwf eq_refl eq_refl Hs).
Defined.


(** ** Clamping (C5, C10) *)

Section Clamp.

Context `{Externals}.
Variable config : gmap string string.
Variable args : list (string * string).

Lemma safe_limit_min (key default_key query_param : string) (v c : Z) :
  int_of (match args_get args query_param with
          | Some s => Some s
          | None => config !! default_key
          end) = Ok v ->
  int_of (config !! key) = Ok c ->
  safe_limit config args key default_key query_param = Ok (Z.min v c).
Proof.
  intros Hv Hc. unfold safe_limit. rewrite Hv, Hc. simpl.
  destruct (Z.ltb_spec v c).
  - now rewrite Z.min_l by lia.
  - now rewrite Z.min_r by lia.
Qed.

Lemma safe_limit_inv (key default_key query_param : string) (r : Z) :
  safe_limit config args key default_key query_param = Ok r ->
  exists v c,
    int_of (match args_get args query_param with
            | Some s => Some s
            | None => config !! default_key
            end) = Ok v /\
    int_of (config !! key) = Ok c /\ r = Z.min v c.
Proof.
  unfold safe_limit. intros Hs.
  destruct (int_of (match args_get args query_param with
                    | Some s => Some s
                    | None => config !! default_key
                    end)) as [v|e] eqn:Hv; simpl in Hs; [|discriminate].
  destruct (int_of (config !! key)) as [c|e] eqn:Hc; simpl in Hs;
    [|discriminate].
  exists v, c. repeat split.
  destruct (Z.ltb_spec v c); injection Hs as <-; lia.
Qed.

(** C5, as the code has it: with ceiling [c], a missing parameter gives
    the smaller of the configured default and [c] (the default itself
    when it does not exceed [c]), a supplied integer [v] gives
    [min v c], and no result exceeds [c]; [safe_distance] is the same
    clamp at the distance keys. *)
Theorem safe_limit_clamps (key default_key query_param : string) (c : Z) :
  int_of (config !! key) = Ok c ->
  (forall d, args_get args query_param = None ->
             int_of (config !! default_key) = Ok d ->
             safe_limit config args key default_key query_param
               = Ok (Z.min d c) /\
             ((d <= c)%Z ->
              safe_limit config args key default_key query_param = Ok d)) /\
  (forall s v, args_get args query_param = Some s ->
               py_int s = Some v ->
               safe_limit config args key default_key query_param
                 = Ok (Z.min v c)) /\
  (forall r, safe_limit config args key default_key query_param = Ok r ->
             (r <= c)%Z) /\
  safe_distance config args =
    safe_limit config args "DISTANCE_LIMIT" "DISTANCE_DEFAULT" "maxDistance".
Proof.
  intros Hc. split; [|split; [|split; [|reflexivity]]].
  - intros d Habsent Hd.
    assert (Hmin : safe_limit config args key default_key query_param
                   = Ok (Z.min d c)).
    { apply safe_limit_min; [now rewrite Habsent|exact Hc]. }
    split; [exact Hmin|]. intros Hle. rewrite Hmin. f_equal. lia.
  - intros s v Hs Hv. apply safe_limit_min; [|exact Hc].
    rewrite Hs. simpl. now rewrite Hv.
  - intros r Hr. apply safe_limit_inv in Hr as (v & c' & _ & Hc' & ->).
    rewrite Hc in Hc'. injection Hc' as <-. lia.
Qed.


End Clamp.

Lemma sample_limits :
  int_of (H := Sample.world) (Sample.config !! "LIST_LIMIT") = Ok 50%Z /\
  int_of (H := Sample.world) (Sample.config !! "LIST_DEFAULT_COUNT")
    = Ok 10%Z /\
  int_of (H := Sample.world) (Sample.config !! "DISTANCE_LIMIT")
    = Ok 50000%Z /\
  int_of (H := Sample.world) (Sample.config !! "DISTANCE_DEFAULT")
    = Ok 10000%Z.
Proof. repeat split; vm_compute; reflexivity. Qed.

Lemma safe_limit_clamps_witness :
  int_of (H := Sample.world) (Sample.config !! "LIST_LIMIT") = Ok 50%Z /\
  safe_limit (H := Sample.world) Sample.config []
    "LIST_LIMIT" "LIST_DEFAULT_COUNT" "limit" = Ok 10%Z /\
  safe_limit (H := Sample.world) Sample.config [("limit", "70")]
    "LIST_LIMIT" "LIST_DEFAULT_COUNT" "limit" = Ok 50%Z.
Proof.
  destruct sample_limits as (Hc & Hd & _).
  split; [exact Hc|]. split.
  - exact (proj2 (proj1 (safe_limit_clamps (H := Sample.world) Sample.config []
             "LIST_LIMIT" "LIST_DEFAULT_COUNT" "limit" 50 Hc)
             10%Z eq_refl Hd) ltac:(lia)).
  - exact (proj1 (proj2 (safe_limit_clamps (H := Sample.world) Sample.config
             [("limit", "70")] "LIST_LIMIT" "LIST_DEFAULT_COUNT" "limit" 50 Hc))
             "70" 70%Z eq_refl eq_refl).
Defined.

(** C5 as stated fails: with [LIST_LIMIT=5] in the environment and the
    default count left at 10, a request without [limit] gets 5, not the
    configured default. *)
Lemma safe_limit_default_is_clamped :
  let config := app_config {["LIST_LIMIT" := "5"]} in
  args_get [] "limit" = None /\
  int_of (H := Sample.world) (config !! "LIST_DEFAULT_COUNT") = Ok 10%Z /\
  safe_limit (H := Sample.world) config []
    "LIST_LIMIT" "LIST_DEFAULT_COUNT" "limit" = Ok 5%Z.
Proof. repeat split; vm_compute; reflexivity. Qed.

(** ** The geocode cache (C6, C1) *)

Lemma calls_app {A} (m : M A) (s : state) (evs : list event) :
  trace (snd (m s)) = trace s ++ evs -> calls m s = evs.
Proof. intros Ht. unfold calls. rewrite Ht. apply drop_app_length. Qed.

Section Geocode.

Context `{Externals}.
Variables (address : string) (http_timeout : R) (expire_ttl : Z).

Let key : string := ("address:" ++ slugify address)%string.

(** A miss: one request to the geocoder, one write with the time to
    live. *)
Lemma geocode_miss (s : state) (reply raw_location : value) :
  redis s !! key = None ->
  geocoder address = Ok reply ->
  raw_location_of reply = Ok raw_location ->
  geocode address true http_timeout expire_ttl s =
  (Ok raw_location,
   State (<[key := (dumps raw_location, expire_ttl)]> (redis s))
         (trace s ++ [RedisGet key; GeocoderGet address;
                      RedisSet key (dumps raw_location) expire_ttl])).
Proof.
  intros Hmiss Hreply Hloc.
  unfold geocode, mbind, M_bind, redis_get. fold key. rewrite Hmiss. simpl.
  unfold requests_get, try_except_IndexError, lift, redis_set, mret, M_ret.
  rewrite Hreply, Hloc. simpl.
  now rewrite <- !app_assoc.
Qed.

(** A hit: no request to the geocoder, the time to live set anew. *)
Lemma geocode_hit (s : state) (v : string) (remaining : Z) :
  redis s !! key = Some (v, remaining) ->
  geocode address true http_timeout expire_ttl s =
  (loads v,
   State (<[key := (v, expire_ttl)]> (redis s))
         (trace s ++ [RedisGet key; RedisExpire key expire_ttl])).
Proof.
  intros Hhit.
  unfold geocode, mbind, M_bind, redis_get. fold key. rewrite Hhit. simpl.
  unfold lift, redis_expire, emit. simpl.
  assert (Halter : alter (fun e => (e.1, expire_ttl)) key (redis s)
                   = <[key := (v, expire_ttl)]> (redis s)).
  { apply map_eq. intros k. rewrite lookup_alter, lookup_insert.
    case_decide; [subst k; now rewrite Hhit|reflexivity]. }
  rewrite Halter, <- app_assoc. reflexivity.
Qed.

(** No result: the exception object comes back as the value. *)
Lemma geocode_no_result (s : state) (cache : bool) (reply : value) :
  (cache = true -> redis s !! key = None) ->
  geocoder address = Ok reply ->
  getitem reply "results" = Ok (VList []) ->
  geocode address cache http_timeout expire_ttl s =
  (Ok (VExc ("Can't get location " ++ address ++ ".")%string),
   State (redis s)
         (trace s ++ (if cache then [RedisGet key] else []) ++
                     [GeocoderGet address])).
Proof.
  intros Hmiss Hreply Hres.
  unfold geocode, mbind, M_bind, redis_get. fold key.
  destruct cache; [rewrite (Hmiss eq_refl)|]; simpl;
    unfold requests_get, try_except_IndexError, lift, raw_location_of;
    rewrite Hreply, Hres; simpl; unfold mret, M_ret, emit; simpl;
    rewrite <- ?app_assoc; reflexivity.
Qed.

End Geocode.

Lemma raw_location_pair (reply raw_location : value) :
  raw_location_of reply = Ok raw_location ->
  exists lng lat, raw_location = VList [lng; lat].
Proof.
  unfold raw_location_of. intros Hr.
  repeat match type of Hr with
         | context [mbind _ ?r] =>
             destruct r; simpl in Hr; [|discriminate]
         end.
  injection Hr as <-. eauto.
Qed.

(** C6: with caching on, a first call that misses the cache asks the
    geocoder once and writes the pair once, with the time to live; a call
    that finds the entry asks the geocoder nothing, sets the entry's time to
    live to the full value again and returns the decoded entry. *)
Theorem geocode_cache_aside `{Externals} (address : string)
    (http_timeout : R) (expire_ttl : Z) (s : state)
    (reply raw_location : value) :
  let key := ("address:" ++ slugify address)%string in
  let run := geocode address true http_timeout expire_ttl in
  redis s !! key = None ->
  geocoder address = Ok reply ->
  raw_location_of reply = Ok raw_location ->
  (fst (run s) = Ok raw_location /\
   (exists lng lat, raw_location = VList [lng; lat]) /\
   calls run s = [RedisGet key; GeocoderGet address;
                  RedisSet key (dumps raw_location) expire_ttl] /\
   count_events is_geocoder_call (calls run s) = 1%nat /\
   count_events is_redis_set (calls run s) = 1%nat /\
   redis (snd (run s)) !! key = Some (dumps raw_location, expire_ttl)) /\
  (forall (s' : state) (v : string) (remaining : Z),
     redis s' !! key = Some (v, remaining) ->
     fst (run s') = loads v /\
     calls run s' = [RedisGet key; RedisExpire key expire_ttl] /\
     count_events is_geocoder_call (calls run s') = 0%nat /\
     count_events is_redis_expire (calls run s') = 1%nat /\
     redis (snd (run s')) !! key = Some (v, expire_ttl)) /\
  fst (run (snd (run s))) = loads (dumps raw_location).
Proof.
  intros key run Hmiss Hreply Hloc.
  pose proof (geocode_miss address http_timeout expire_ttl s reply
                raw_location Hmiss Hreply Hloc) as Hfirst.
  fold key in Hfirst. fold run in Hfirst.
  assert (Hcalls : calls run s =
                   [RedisGet key; GeocoderGet address;
                    RedisSet key (dumps raw_location) expire_ttl]).
  { apply calls_app. now rewrite Hfirst. }
  assert (Hlater : forall (s' : state) (v : string) (remaining : Z),
     redis s' !! key = Some (v, remaining) ->
     fst (run s') = loads v /\
     calls run s' = [RedisGet key; RedisExpire key expire_ttl] /\
     count_events is_geocoder_call (calls run s') = 0%nat /\
     count_events is_redis_expire (calls run s') = 1%nat /\
     redis (snd (run s')) !! key = Some (v, expire_ttl)).
  { intros s' v remaining Hhit.
    pose proof (geocode_hit address http_timeout expire_ttl s' v remaining
                  Hhit) as Hsecond.
    fold key in Hsecond. fold run in Hsecond.
    assert (Hc : calls run s' = [RedisGet key; RedisExpire key expire_ttl])
      by (apply calls_app; now rewrite Hsecond).
    rewrite Hc, Hsecond. simpl. repeat split. apply lookup_insert_eq. }
  split; [|split; [exact Hlater|]].
  - rewrite Hcalls, Hfirst. simpl. repeat split.
    + now apply raw_location_pair in Hloc.
    + apply lookup_insert_eq.
  - apply (Hlater _ _ expire_ttl). rewrite Hfirst. simpl.
    apply lookup_insert_eq.
Qed.

Lemma sample_reply :
  raw_location_of
    (VDict
       [("results",
         VList [VDict
                  [("geometry",
                    VDict [("location",
                            VDict [("lat", VFloat 46.05);
                                   ("lng", VFloat 14.5)])])]]);
        ("status", VStr "OK")]) = Ok Sample.ljubljana.
Proof. reflexivity. Qed.

Lemma geocode_cache_aside_witness :
  let run := geocode (H := Sample.world) "Ljubljana" true (1 / 10)%R 86400 in
  fst (run Sample.idle) = Ok Sample.ljubljana /\
  calls run Sample.idle =
    [RedisGet "address:Ljubljana"; GeocoderGet "Ljubljana";
     RedisSet "address:Ljubljana" "[14.5, 46.05]" 86400] /\
  calls run (snd (run Sample.idle)) =
    [RedisGet "address:Ljubljana"; RedisExpire "address:Ljubljana" 86400] /\
  fst (run (snd (run Sample.idle))) = Ok Sample.ljubljana.
Proof.
  intros run.
  destruct (geocode_cache_aside (H := Sample.world) "Ljubljana" (1 / 10)%R
              86400 Sample.idle _ Sample.ljubljana
              eq_refl eq_refl sample_reply)
    as ((Hfst & _ & Hcalls & _ & _ & Hentry) & Hlater & Hsecond).
  split; [exact Hfst|]. split; [exact Hcalls|]. split.
  - exact (proj1 (proj2 (Hlater _ _ _ Hentry))).
  - exact Hsecond.
Defined.

(** C1, what the code does: when the geocoder has no result for the
    address, [geocode] returns the exception object as an ordinary value;
    [list_stations] takes it for a reference point and puts it into the
    geospatial clause as the coordinates. *)
Theorem geocode_returns_exception_object `{Externals}
    (config : gmap string string) (args : list (string * string))
    (address : string) (s : state) (reply at0 : value) :
  let key := ("address:" ++ slugify address)%string in
  let message := VExc ("Can't get location " ++ address ++ ".")%string in
  args_get args "near" = Some address ->
  address <> "" ->
  parse_at args = Ok at0 ->
  redis s !! key = None ->
  geocoder address = Ok reply ->
  getitem reply "results" = Ok (VList []) ->
  fst (geocode address true (1 / 10)%R 86400 s) = Ok message /\
  fst (reference_point args s) = Ok message /\
  truthy message = true /\
  build_where config args message =
    (max_distance ← safe_distance config args;
     Ok [("company", VStr "petrol");
         ("loc",
          VDict [("$near",
                  VDict [("$geometry",
                          VDict [("type", VStr "Point");
                                 ("coordinates", message)]);
                         ("$maxDistance", VInt max_distance)])])]).
Proof.
  intros key message Hnear Hne Hat Hmiss Hreply Hres.
  pose proof (geocode_no_result address (1 / 10)%R 86400 s true reply
                (fun _ => Hmiss) Hreply Hres) as Hg.
  split; [now rewrite Hg|]. split; [|split; [reflexivity|]].
  - unfold reference_point, mbind, M_bind, lift. rewrite Hat, Hnear.
    assert (Ht : truthy (VStr address) = true).
    { simpl. destruct (String.eqb_spec address ""); [contradiction|easy]. }
    rewrite Ht. now rewrite Hg.
  - unfold build_where. simpl.
    destruct (safe_distance config args); reflexivity.
Qed.

Lemma geocode_returns_exception_object_witness :
  fst (geocode (H := Sample.world) "nowhere" true (1 / 10)%R 86400
         Sample.idle)
  = Ok (VExc "Can't get location nowhere.") /\
  fst (reference_point (H := Sample.world) [("near", "nowhere")] Sample.idle)
  = Ok (VExc "Can't get location nowhere.").
Proof.
  destruct (geocode_returns_exception_object (H := Sample.world)
              Sample.config [("near", "nowhere")] "nowhere" Sample.idle
              _ (VList []) eq_refl ltac:(discriminate) eq_refl eq_refl
              eq_refl eq_refl) as (Hg & Hr & _).
  split; [exact Hg|exact Hr].
Defined.

(** The same request through [list_stations]: with a record back from the
    store, [tuple(at)] of line 110 raises [TypeError]; with none, the
    response is [ok] with no station. *)
Lemma sample_unresolved_near_raises :
  fst (list_stations (H := Sample.world) Sample.config
         [("near", "nowhere")] Sample.idle) = Raise TypeError.
Proof. vm_compute. reflexivity. Qed.

Lemma sample_unresolved_near_is_ok :
  exists elapsed,
    fst (list_stations (H := Sample.world) Sample.config
           [("near", "nowhere"); ("limit", "0")] Sample.idle)
    = Ok (VDict [("status", VStr "ok"); ("stations", VList []);
                 ("executed_in", VFloat elapsed)]).
Proof. eexists. vm_compute. reflexivity. Qed.

(** ** The run of [list_stations] *)

Section Quiet.

Context `{Externals}.

Lemma quiet_ret {A} (a : A) : quiet (mret a).
Proof. intros s. exists []. split; [now rewrite app_nil_r|constructor]. Qed.

Lemma quiet_lift {A} (r : result A) : quiet (lift r).
Proof. intros s. exists []. split; [now rewrite app_nil_r|constructor]. Qed.

Lemma quiet_bind {A B} (m : M A) (k : A -> M B) :
  quiet m -> (forall a, quiet (k a)) -> quiet (m ≫= k).
Proof.
  intros Hm Hk s. unfold mbind, M_bind.
  destruct (Hm s) as (evs & Ht & Hq).
  destruct (m s) as [[a|e] s'] eqn:Hms; simpl in Ht.
  - destruct (Hk a s') as (evs' & Ht' & Hq').
    exists (evs ++ evs'). split.
    + now rewrite Ht', Ht, app_assoc.
    + now apply Forall_app.
  - exists evs. now split.
Qed.

Lemma quiet_try {A} (body handler : M A) :
  quiet body -> quiet handler -> quiet (try_except_IndexError body handler).
Proof.
  intros Hb Hh s. unfold try_except_IndexError.
  destruct (Hb s) as (evs & Ht & Hq).
  destruct (body s) as [[a|e] s'] eqn:Hbs; simpl in Ht.
  - exists evs. now split.
  - destruct e; try (exists evs; now split).
    destruct (Hh s') as (evs' & Ht' & Hq').
    exists (evs ++ evs'). split.
    + now rewrite Ht', Ht, app_assoc.
    + now apply Forall_app.
Qed.

Lemma quiet_step {A} (m : M A) (e : event) :
  no_find e -> (forall s, trace (snd (m s)) = trace s ++ [e]) -> quiet m.
Proof.
  intros He Hm s. exists [e]. split; [apply Hm|].
  constructor; [exact He|constructor].
Qed.

Lemma quiet_geocode address cache http_timeout expire_ttl :
  quiet (geocode address cache http_timeout expire_ttl).
Proof.
  unfold geocode.
  destruct cache;
    repeat first
      [ apply quiet_ret
      | apply quiet_lift
      | apply quiet_try
      | apply quiet_bind
      | intros [?|]
      | intro
      | eapply quiet_step; [|intro; reflexivity]; reflexivity ].
Qed.

Lemma quiet_reference_point args : quiet (reference_point args).
Proof.
  unfold reference_point. apply quiet_bind; [apply quiet_lift|].
  intros at_. destruct (args_get args "near") as [near|];
    [|apply quiet_ret].
  destruct (truthy (VStr near)); [apply quiet_geocode|apply quiet_ret].
Qed.

End Quiet.

Lemma quiet_has_no_find (evs : list event) (w p : value) (n : Z) :
  Forall no_find evs -> StoreFind w p n ∉ evs.
Proof.
  intros Hq Hin.
  apply (proj1 (Forall_forall _ _) Hq) in Hin. discriminate Hin.
Qed.

Section Run.

Context `{Externals}.
Variable config : gmap string string.
Variable args : list (string * string).

(** The response of line 73. *)
Let response (stations : list (Dict.t value)) (elapsed : R) : value :=
  VDict [("status", VStr "ok");
         ("stations", VList (map VDict stations));
         ("executed_in", VFloat elapsed)].

(** [list_stations] from the point where the reference point is known:
    one query of the store, then the shaping of its records. *)
Lemma list_stations_run (s s1 : state) (keys : list string) (at_ : value)
    (where_ : Dict.t value) (limit : Z) :
  station_keys args = Ok keys ->
  reference_point args (emit ClockRead s) = (Ok at_, s1) ->
  build_where config args at_ = Ok where_ ->
  safe_limit config args "LIST_LIMIT" "LIST_DEFAULT_COUNT" "limit"
    = Ok limit ->
  let s2 := emit (StoreFind (VDict where_) (VDict (projection_of keys)) limit)
                 s1 in
  list_stations config args s =
  match (records ← store_find (VDict where_) (VDict (projection_of keys))
                              limit;
         stations_of (keys ++ ["prices"; "distance"]) at_ records) with
  | Ok stations =>
      (Ok (response stations
             (clock (count_events is_time (trace s2)) -
              clock (count_events is_time (trace s)))%R),
       emit ClockRead s2)
  | Raise e => (Raise e, s2)
  end.
Proof.
  intros Hkeys Href Hwhere Hlimit s2.
  unfold list_stations, mbind at 1, M_bind, time.
  unfold mbind at 1, M_bind, lift. rewrite Hkeys.
  unfold mbind at 1, M_bind. rewrite Href.
  unfold mbind at 1, M_bind. rewrite Hwhere.
  unfold mbind at 1, M_bind. rewrite Hlimit.
  unfold mbind at 1, M_bind, find. fold s2.
  destruct (store_find (VDict where_) (VDict (projection_of keys)) limit)
    as [records|e]; [|reflexivity].
  unfold mbind at 1, M_bind.
  change (mbind ?k (Ok records)) with (k records). cbv beta.
  destruct (stations_of (keys ++ ["prices"; "distance"]) at_ records)
    as [stations|e]; reflexivity.
Qed.

(** Every query of the store that [list_stations] makes carries the
    filter of [build_where], the projection of [station_keys] and the
    limit of [safe_limit]. *)
Lemma list_stations_finds (s : state) :
  exists evs,
    trace (snd (list_stations config args s)) = trace s ++ evs /\
    forall where_ projection limit,
      StoreFind where_ projection limit ∈ evs ->
      exists keys at_ s1 w,
        station_keys args = Ok keys /\
        reference_point args (emit ClockRead s) = (Ok at_, s1) /\
        build_where config args at_ = Ok w /\
        safe_limit config args "LIST_LIMIT" "LIST_DEFAULT_COUNT" "limit"
          = Ok limit /\
        where_ = VDict w /\
        projection = VDict (projection_of keys).
Proof.
  destruct (quiet_reference_point args (emit ClockRead s)) as (evs & Ht & Hq).
  assert (Hno : forall w p n tl,
            Forall no_find tl -> StoreFind w p n ∈ ClockRead :: evs ++ tl ->
            False).
  { intros w p n tl Htl Hin.
    apply elem_of_cons in Hin as [Hin|Hin]; [discriminate|].
    apply elem_of_app in Hin as [Hin|Hin];
      revert Hin; now apply quiet_has_no_find. }
  destruct (station_keys args) as [keys|e] eqn:Hkeys.
  2:{ exists [ClockRead]. split.
      - unfold list_stations, mbind, M_bind, time, lift. now rewrite Hkeys.
      - intros w p n Hin. exfalso.
        apply list_elem_of_singleton in Hin. discriminate. }
  destruct (reference_point args (emit ClockRead s)) as [[at_|e] s1] eqn:Href.
  2:{ exists (ClockRead :: evs). split.
      - unfold list_stations, mbind, M_bind, time, lift.
        rewrite Hkeys, Href. simpl in *. now rewrite Ht, <- app_assoc.
      - intros w' p n Hin. exfalso.
        apply (Hno w' p n []); [constructor|now rewrite app_nil_r]. }
  simpl in Ht.
  destruct (build_where config args at_) as [w|e] eqn:Hwhere.
  2:{ exists (ClockRead :: evs). split.
      - unfold list_stations, mbind, M_bind, time, lift.
        rewrite Hkeys, Href, Hwhere. simpl. now rewrite Ht, <- app_assoc.
      - intros w' p n Hin. exfalso.
        apply (Hno w' p n []); [constructor|now rewrite app_nil_r]. }
  destruct (safe_limit config args "LIST_LIMIT" "LIST_DEFAULT_COUNT" "limit")
    as [limit|e] eqn:Hlimit.
  2:{ exists (ClockRead :: evs). split.
      - unfold list_stations, mbind, M_bind, time, lift.
        rewrite Hkeys, Href, Hwhere, Hlimit. simpl.
        now rewrite Ht, <- app_assoc.
      - intros w' p n Hin. exfalso.
        apply (Hno w' p n []); [constructor|now rewrite app_nil_r]. }
  rewrite (list_stations_run s s1 keys at_ w limit Hkeys Href Hwhere Hlimit).
  set (query := StoreFind (VDict w) (VDict (projection_of keys)) limit).
  assert (Hfound : forall tl, Forall no_find tl ->
            forall w' p n, StoreFind w' p n ∈ ClockRead :: evs ++ query :: tl ->
            w' = VDict w /\ p = VDict (projection_of keys) /\ n = limit).
  { intros tl Htl w' p n Hin.
    apply elem_of_cons in Hin as [Hin|Hin]; [discriminate|].
    apply elem_of_app in Hin as [Hin|Hin].
    - exfalso. revert Hin. now apply quiet_has_no_find.
    - apply elem_of_cons in Hin as [Hin|Hin].
      + injection Hin as -> -> ->. now repeat split.
      + exfalso. revert Hin. now apply quiet_has_no_find. }
  assert (Hgoal : forall tl, Forall no_find tl ->
            forall w' p n, StoreFind w' p n ∈ ClockRead :: evs ++ query :: tl ->
            exists keys0 at0 s0 w0,
              Ok keys = Ok keys0 /\
              (Ok at_, s1) = (Ok at0, s0) /\
              build_where config args at0 = Ok w0 /\
              Ok limit = Ok n /\
              w' = VDict w0 /\ p = VDict (projection_of keys0)).
  { intros tl Htl w' p n Hin.
    destruct (Hfound tl Htl w' p n Hin) as (-> & -> & ->).
    exists keys, at_, s1, w. now repeat split. }
  destruct (records ← store_find (VDict w) (VDict (projection_of keys)) limit;
            stations_of (keys ++ ["prices"; "distance"]) at_ records)
    as [stations|e].
  - exists (ClockRead :: evs ++ [query; ClockRead]). split.
    + simpl. rewrite Ht. now rewrite <- !app_assoc.
    + apply Hgoal. constructor; [reflexivity|constructor].
  - exists (ClockRead :: evs ++ [query]). split.
    + simpl. rewrite Ht. now rewrite <- !app_assoc.
    + apply Hgoal. constructor.
Qed.

End Run.

Lemma list_stations_query `{Externals} (config : gmap string string)
    (args : list (string * string)) (s : state)
    (where_ projection : value) (limit : Z) :
  StoreFind where_ projection limit ∈ calls (list_stations config args) s ->
  exists keys at_ s1 w,
    station_keys args = Ok keys /\
    reference_point args (emit ClockRead s) = (Ok at_, s1) /\
    build_where config args at_ = Ok w /\
    safe_limit config args "LIST_LIMIT" "LIST_DEFAULT_COUNT" "limit"
      = Ok limit /\
    where_ = VDict w /\
    projection = VDict (projection_of keys).
Proof.
  destruct (list_stations_finds config args s) as (evs & Ht & Hfinds).
  rewrite (calls_app _ _ _ Ht). apply Hfinds.
Qed.

(** ** The filter (C3) *)

Lemma build_where_shape `{Externals} (config : gmap string string)
    (args : list (string * string)) (at_ : value) (w : Dict.t value) :
  build_where config args at_ = Ok w ->
  (truthy at_ = false /\ w = [("company", VStr "petrol")]) \/
  (truthy at_ = true /\
   exists max_distance,
     safe_distance config args = Ok max_distance /\
     w = [("company", VStr "petrol");
          ("loc",
           VDict [("$near",
                   VDict [("$geometry",
                           VDict [("type", VStr "Point");
                                  ("coordinates", at_)]);
                          ("$maxDistance", VInt max_distance)])])]).
Proof.
  unfold build_where. destruct (truthy at_).
  - destruct (safe_distance config args) as [d|e]; simpl; [|discriminate].
    intros Hw. injection Hw as <-. right. split; [reflexivity|].
    exists d. split; reflexivity.
  - intros Hw. injection Hw as <-. now left.
Qed.

(** C3, as the code has it: whatever the request, the filter of every
    query of the store is [{company: "petrol"}], alone or followed by the
    geospatial clause on [loc]. *)
Theorem base_filter_is_company_petrol `{Externals}
    (config : gmap string string) (args : list (string * string))
    (s : state) (where_ projection : value) (limit : Z) :
  StoreFind where_ projection limit ∈ calls (list_stations config args) s ->
  base_where = [("company", VStr "petrol")] /\
  (where_ = VDict [("company", VStr "petrol")] \/
   exists clause,
     where_ = VDict [("company", VStr "petrol"); ("loc", clause)]).
Proof.
  intros Hin. split; [reflexivity|].
  apply list_stations_query in Hin
    as (keys & at_ & s1 & w & _ & _ & Hw & _ & -> & _).
  apply build_where_shape in Hw as [[_ ->]|[_ (d & _ & ->)]].
  - now left.
  - right. eauto.
Qed.

Lemma sample_plain_calls :
  calls (list_stations (H := Sample.world) Sample.config []) Sample.idle =
  [ClockRead;
   StoreFind (VDict [("company", VStr "petrol")])
             (VDict [("key", VInt 1); ("loc", VInt 1); ("address", VInt 1);
                     ("updated_at", VInt 1); ("prices", VInt 1);
                     ("scraped_url", VInt 1)])
             10;
   ClockRead].
Proof. vm_compute. reflexivity. Qed.

Lemma base_filter_is_company_petrol_witness :
  StoreFind (VDict [("company", VStr "petrol")])
            (VDict [("key", VInt 1); ("loc", VInt 1); ("address", VInt 1);
                    ("updated_at", VInt 1); ("prices", VInt 1);
                    ("scraped_url", VInt 1)])
            10
    ∈ calls (list_stations (H := Sample.world) Sample.config []) Sample.idle
  /\ (VDict [("company", VStr "petrol")] = VDict [("company", VStr "petrol")]
      \/ exists clause,
          VDict [("company", VStr "petrol")] =
          VDict [("company", VStr "petrol"); ("loc", clause)]).
Proof.
  assert (Hin : StoreFind (VDict [("company", VStr "petrol")])
            (VDict [("key", VInt 1); ("loc", VInt 1); ("address", VInt 1);
                    ("updated_at", VInt 1); ("prices", VInt 1);
                    ("scraped_url", VInt 1)])
            10
    ∈ calls (list_stations (H := Sample.world) Sample.config []) Sample.idle).
  { rewrite sample_plain_calls. apply list_elem_of_further, list_elem_of_here. }
  split; [exact Hin|].
  exact (proj2 (base_filter_is_company_petrol (H := Sample.world)
                  Sample.config [] Sample.idle _ _ _ Hin)).
Defined.

(** C3 as stated fails: the field of the filter is [company], not
    [category]. *)
Lemma base_filter_is_not_category :
  exists projection limit,
    calls (list_stations (H := Sample.world) Sample.config []) Sample.idle =
    [ClockRead; StoreFind (VDict [("company", VStr "petrol")]) projection limit;
     ClockRead] /\
    VDict [("company", VStr "petrol")] <> VDict [("category", VStr "petrol")].
Proof.
  do 2 eexists. split; [exact sample_plain_calls|]. discriminate.
Qed.

(** ** The projection *)

Section Projection.

Context `{Externals}.

Lemma station_keys_prices (args : list (string * string))
    (prices : string) :
  args_get args "prices" = Some prices ->
  prices <> "" ->
  station_keys args =
  Ok (["key"; "loc"; "address"; "updated_at"; "scraped_url"] ++
      map price_field (Str.split "," prices)).
Proof.
  intros Hp Hne. unfold station_keys. rewrite Hp.
  assert (Ht : truthy (VStr prices) = true).
  { simpl. destruct (String.eqb_spec prices ""); [contradiction|easy]. }
  rewrite Ht. reflexivity.
Qed.

Lemma station_keys_plain (args : list (string * string)) :
  (args_get args "prices" = None \/ args_get args "prices" = Some "") ->
  station_keys args = Ok base_keys.
Proof. unfold station_keys. now intros [-> | ->]. Qed.

Lemma projection_keys (keys : list string) (k : string) :
  k ∈ Dict.keys (projection_of keys) <-> k ∈ keys.
Proof.
  unfold projection_of. rewrite of_items_keys, map_map. simpl.
  now rewrite map_id.
Qed.

Lemma bare_prices_gone (tokens : list string) :
  "prices" ∉ (["key"; "loc"; "address"; "updated_at"; "scraped_url"] ++
              map price_field tokens).
Proof.
  rewrite elem_of_app. intros [Hin|Hin].
  - rewrite !elem_of_cons, elem_of_nil in Hin. intuition discriminate.
  - apply list_elem_of_In, in_map_iff in Hin as (p & Hp & _).
    discriminate Hp.
Qed.

Lemma enriched_prices_field (keys : list string)
    (station out : Dict.t value) (d : Dict.t value) :
  Dict.wf station ->
  Dict.get station "prices" = Some (VDict d) ->
  simple_station station (Some (keys ++ ["prices"; "distance"]))
                 (Some station_mapping) = Ok out ->
  exists entries,
    enrich_prices (VDict d) = Ok (VList entries) /\
    Dict.get out "prices" = Some (VList entries).
Proof.
  intros Hwf Hget Hs.
  destruct (simple_station_fields _ _ _ _ Hwf Hs) as [_ Hfields].
  eexists. split; [reflexivity|]. apply Hfields.
  exists (VDict d). split; [exact Hget|]. split; [|reflexivity].
  unfold kept. apply orb_true_iff. right. apply mem_elem_of.
  rewrite elem_of_app, !elem_of_cons. tauto.
Qed.

End Projection.

(** The projection of a request with a [prices] parameter, and the shaping
    of one record with the keys of that request. *)
Lemma prices_projection_facts `{Externals}
    (config : gmap string string) (args : list (string * string))
    (prices : string) :
  args_get args "prices" = Some prices ->
  prices <> "" ->
  let keys := ["key"; "loc"; "address"; "updated_at"; "scraped_url"] ++
              map price_field (Str.split "," prices) in
  (forall s where_ projection limit,
     StoreFind where_ projection limit ∈ calls (list_stations config args) s ->
     projection = VDict (projection_of keys)) /\
  Dict.wf (projection_of keys) /\
  (forall p, p ∈ Str.split "," prices ->
             price_field p ∈ Dict.keys (projection_of keys)) /\
  (forall k, k ∈ Dict.keys (projection_of keys) ->
             k ∈ ["key"; "loc"; "address"; "updated_at"; "scraped_url"] \/
             exists p, p ∈ Str.split "," prices /\ k = price_field p) /\
  ~ "prices" ∈ Dict.keys (projection_of keys) /\
  (forall station d out,
     Dict.wf station ->
     Dict.get station "prices" = Some (VDict d) ->
     simple_station station (Some (keys ++ ["prices"; "distance"]))
                    (Some station_mapping) = Ok out ->
     exists entries,
       enrich_prices (VDict d) = Ok (VList entries) /\
       Dict.get out "prices" = Some (VList entries)).
Proof.
  intros Hp Hne keys.
  pose proof (station_keys_prices args prices Hp Hne) as Hkeys.
  fold keys in Hkeys.
  split; [|split; [|split; [|split; [|split]]]].
  - intros s where_ projection limit Hin.
    apply list_stations_query in Hin
      as (keys' & _ & _ & _ & Hk & _ & _ & _ & _ & ->).
    rewrite Hkeys in Hk. now injection Hk as <-.
  - apply of_items_wf.
  - intros p Hin. apply (proj2 (projection_keys _ _)). unfold keys.
    apply elem_of_app. right. apply list_elem_of_In, in_map.
    now apply list_elem_of_In.
  - intros k Hin. apply (proj1 (projection_keys _ _)) in Hin.
    unfold keys in Hin.
    apply elem_of_app in Hin as [Hin|Hin]; [now left|right].
    apply list_elem_of_In, in_map_iff in Hin as (p & <- & Hin).
    exists p. split; [now apply list_elem_of_In|reflexivity].
  - rewrite projection_keys. apply bare_prices_gone.
  - intros station d out. apply enriched_prices_field.
Qed.

Lemma sample_station_wf : Dict.wf Sample.station.
Proof. distinct_keys. Qed.


(** ** No reference point (C9) *)

Section NoReference.

Context `{Externals}.
Variable config : gmap string string.
Variable args : list (string * string).

Lemma list_stations_ok (s s' : state) (response : value) :
  list_stations config args s = (Ok response, s') ->
  exists keys at_ s1 w limit records stations elapsed,
    station_keys args = Ok keys /\
    reference_point args (emit ClockRead s) = (Ok at_, s1) /\
    build_where config args at_ = Ok w /\
    safe_limit config args "LIST_LIMIT" "LIST_DEFAULT_COUNT" "limit"
      = Ok limit /\
    store_find (VDict w) (VDict (projection_of keys)) limit = Ok records /\
    stations_of (keys ++ ["prices"; "distance"]) at_ records = Ok stations /\
    response = VDict [("status", VStr "ok");
                      ("stations", VList (map VDict stations));
                      ("executed_in", VFloat elapsed)].
Proof.
  intros Hrun.
  destruct (station_keys args) as [keys|e] eqn:Hkeys.
  2:{ unfold list_stations, mbind, M_bind, time, lift in Hrun.
      rewrite Hkeys in Hrun. discriminate. }
  destruct (reference_point args (emit ClockRead s)) as [[at_|e] s1] eqn:Href.
  2:{ unfold list_stations, mbind, M_bind, time, lift in Hrun.
      rewrite Hkeys, Href in Hrun. discriminate. }
  destruct (build_where config args at_) as [w|e] eqn:Hwhere.
  2:{ unfold list_stations, mbind, M_bind, time, lift in Hrun.
      rewrite Hkeys, Href, Hwhere in Hrun. discriminate. }
  destruct (safe_limit config args "LIST_LIMIT" "LIST_DEFAULT_COUNT" "limit")
    as [limit|e] eqn:Hlimit.
  2:{ unfold list_stations, mbind, M_bind, time, lift in Hrun.
      rewrite Hkeys, Href, Hwhere, Hlimit in Hrun. discriminate. }
  rewrite (list_stations_run config args s s1 keys at_ w limit
             Hkeys Href Hwhere Hlimit) in Hrun.
  destruct (store_find (VDict w) (VDict (projection_of keys)) limit)
    as [records|e] eqn:Hfind; simpl in Hrun; [|discriminate].
  change (mbind ?k (Ok records)) with (k records) in Hrun. cbv beta in Hrun.
  destruct (stations_of (keys ++ ["prices"; "distance"]) at_ records)
    as [stations|e] eqn:Hst; [|discriminate].
  injection Hrun as <- _.
  exists keys, at_, s1, w, limit, records, stations. eexists.
  repeat split; eassumption || reflexivity.
Qed.

Lemma simple_station_keys_sub (station out : Dict.t value)
    (included_keys : option (list string))
    (mapping : option (Dict.t mapped)) (k : string) :
  simple_station station included_keys mapping = Ok out ->
  k ∈ Dict.keys out -> k ∈ Dict.keys station.
Proof.
  unfold simple_station. intros Hs Hin.
  match type of Hs with
  | context [mapR ?f ?l] => destruct (mapR f l) as [items|e] eqn:Hm
  end; simpl in Hs; [|discriminate].
  injection Hs as <-. apply (proj1 (of_items_keys _ _)) in Hin.
  apply transformed_items, transformed_keys in Hm.
  change (map fst items) with (Dict.keys items) in Hin.
  rewrite Hm in Hin. now apply filter_keys_sub in Hin.
Qed.

Lemma top_level_price_field (p : string) : top_level (price_field p) = "prices".
Proof. reflexivity. Qed.

Lemma station_keys_top (keys : list string) (k : string) :
  station_keys args = Ok keys ->
  k ∈ keys -> top_level k ∈ base_keys.
Proof.
  assert (Hbase : forall k', k' ∈ base_keys -> top_level k' ∈ base_keys).
  { intros k' Hin. unfold base_keys in *.
    repeat (apply elem_of_cons in Hin as [->|Hin];
            [simpl; rewrite !elem_of_cons; auto 10|]).
    now apply elem_of_nil in Hin. }
  unfold station_keys.
  destruct (args_get args "prices") as [prices|];
    [destruct (truthy (VStr prices))|];
    try (intros Hk; injection Hk as <-; apply Hbase).
  change (Str.remove "prices"
            (base_keys ++ map price_field (Str.split "," prices)))
    with (Some (["key"; "loc"; "address"; "updated_at"; "scraped_url"]
                ++ map price_field (Str.split "," prices))).
  intros Hk Hin. injection Hk as Hk. subst keys.
  apply (elem_of_app
           ["key"; "loc"; "address"; "updated_at"; "scraped_url"]) in Hin
    as [Hin|Hin].
  - apply Hbase. unfold base_keys.
    rewrite !elem_of_cons, elem_of_nil in Hin. rewrite !elem_of_cons.
    tauto.
  - apply list_elem_of_In, in_map_iff in Hin as (p & <- & _).
    rewrite top_level_price_field. unfold base_keys.
    rewrite !elem_of_cons. auto 10.
Qed.

Hypothesis near_absent : args_get args "near" = None.
Hypothesis at_empty : args_get args "at" = Some "".

Lemma reference_point_none (s : state) :
  reference_point args s = (Ok (VList []), s).
Proof.
  unfold reference_point, parse_at, mbind, M_bind, lift.
  now rewrite at_empty, near_absent.
Qed.

End NoReference.

(** C9: with [near] absent and [at] the empty string no reference point
    is resolved: resolving raises nothing and calls no service, the filter
    of the query is [{company: "petrol"}] alone, the records are shaped
    without [compute_distance], and, the store returning only fields of
    the projection, no record of the response has a [distance] field. *)
Theorem empty_at_gives_no_reference_point `{Externals}
    (config : gmap string string) (args : list (string * string))
    (s : state) :
  args_get args "near" = None ->
  args_get args "at" = Some "" ->
  reference_point args s = (Ok (VList []), s) /\
  calls (reference_point args) s = [] /\
  build_where config args (VList []) = Ok [("company", VStr "petrol")] /\
  (forall where_ projection limit,
     StoreFind where_ projection limit ∈ calls (list_stations config args) s ->
     where_ = VDict [("company", VStr "petrol")]) /\
  (forall included_keys records,
     stations_of included_keys (VList []) records =
     mapR (fun station => simple_station station (Some included_keys)
                                         (Some station_mapping)) records) /\
  (store_projects ->
   forall response s',
     list_stations config args s = (Ok response, s') ->
     exists stations elapsed,
       response = VDict [("status", VStr "ok");
                         ("stations", VList (map VDict stations));
                         ("executed_in", VFloat elapsed)] /\
       Forall (fun station => Dict.get station "distance" = None) stations).
Proof.
  intros Hnear Hat.
  pose proof (reference_point_none args Hnear Hat) as Href.
  split; [apply Href|]. split.
  { apply calls_app. rewrite Href. simpl. now rewrite app_nil_r. }
  split; [reflexivity|]. split.
  { intros where_ projection limit Hin.
    apply list_stations_query in Hin
      as (keys & at_ & s1 & w & _ & Hr & Hw & _ & -> & _).
    rewrite Href in Hr. injection Hr as <- _.
    injection Hw as <-. reflexivity. }
  split.
  { intros included_keys records. unfold stations_of. simpl.
    destruct (mapR _ records); reflexivity. }
  intros Hstore response s' Hrun.
  apply list_stations_ok in Hrun
    as (keys & at_ & s1 & w & limit & records & stations & elapsed &
        Hkeys & Hr & Hw & _ & Hfind & Hst & ->).
  rewrite Href in Hr. injection Hr as <- _.
  exists stations, elapsed. split; [reflexivity|].
  apply Hstore in Hfind.
  unfold stations_of in Hst. simpl in Hst.
  destruct (mapR _ records) as [shaped|e] eqn:Hshaped; simpl in Hst;
    [|discriminate].
  injection Hst as <-. apply mapR_Forall2 in Hshaped.
  clear Hw. induction Hshaped as [|record station records shaped Hs _ IH].
  - constructor.
  - apply Forall_cons in Hfind as [Hrecord Hrecords].
    constructor; [|now apply IH].
    apply get_none_keys. intros Hin.
    apply (simple_station_keys_sub _ _ _ _ _ Hs) in Hin.
    apply list_elem_of_In, Hrecord in Hin as [Hid|Hin]; [discriminate|].
    apply in_map_iff in Hin as (k & Htop & Hk).
    apply list_elem_of_In in Hk. apply (proj1 (projection_keys _ _)) in Hk.
    apply (station_keys_top args keys k Hkeys) in Hk.
    rewrite Htop in Hk. unfold base_keys in Hk.
    rewrite !elem_of_cons, elem_of_nil in Hk. intuition discriminate.
Qed.

Lemma sample_store_projects : store_projects (H := Sample.world).
Proof.
  intros where_ projection limit records Hfind.
  simpl in Hfind. unfold Sample.find in Hfind. injection Hfind as <-.
  assert (Hone : Forall (answers_projection projection)
                   [Sample.project (VDict projection) Sample.station]).
  { constructor; [|constructor]. intros k Hin.
    apply list_elem_of_In in Hin. unfold Sample.project, Dict.keys in Hin.
    apply list_elem_of_In, in_map_iff in Hin as ([k' v] & <- & Hin).
    apply filter_In in Hin as [_ Hkeep]. simpl.
    apply orb_true_iff in Hkeep as [Hid|Hmem].
    - left. now apply String.eqb_eq.
    - right. now apply list_elem_of_In, mem_elem_of. }
  destruct (Z.to_nat limit) as [|n]; simpl; [constructor|].
  now rewrite firstn_nil.
Qed.

Lemma empty_at_gives_no_reference_point_witness :
  let args := [("at", "")] in
  args_get args "near" = None /\
  args_get args "at" = Some "" /\
  reference_point (H := Sample.world) args Sample.idle
    = (Ok (VList []), Sample.idle) /\
  exists stations elapsed,
    fst (list_stations (H := Sample.world) Sample.config args Sample.idle)
    = Ok (VDict [("status", VStr "ok");
                 ("stations", VList (map VDict stations));
                 ("executed_in", VFloat elapsed)]) /\
    Forall (fun station => Dict.get station "distance" = None) stations.
Proof.
  intros args.
  destruct (empty_at_gives_no_reference_point (H := Sample.world)
              Sample.config args Sample.idle eq_refl eq_refl)
    as (Href & _ & _ & _ & _ & Hresponse).
  split; [reflexivity|]. split; [reflexivity|]. split; [exact Href|].
  destruct (list_stations (H := Sample.world) Sample.config args Sample.idle)
    as [[response|e] s'] eqn:Hrun; [|vm_compute in Hrun; discriminate].
  destruct (Hresponse sample_store_projects response s' eq_refl)
    as (stations & elapsed & -> & Hnone).
  exists stations, elapsed. split; [reflexivity|exact Hnone].
Defined.

(** ** No floor under the clamp (C10) *)


Lemma sample_floorless_calls :
  calls (list_stations (H := Sample.world) Sample.config
           [("limit", "-3"); ("near", "Ljubljana"); ("maxDistance", "-5")])
        Sample.idle =
  [ClockRead;
   RedisGet "address:Ljubljana"; GeocoderGet "Ljubljana";
   RedisSet "address:Ljubljana" "[14.5, 46.05]" 86400;
   StoreFind
     (VDict
        [("company", VStr "petrol");
         ("loc",
          VDict [("$near",
                  VDict [("$geometry",
                          VDict [("type", VStr "Point");
                                 ("coordinates", Sample.ljubljana)]);
                         ("$maxDistance", VInt (-5))])])])
     (VDict [("key", VInt 1); ("loc", VInt 1); ("address", VInt 1);
             ("updated_at", VInt 1); ("prices", VInt 1);
             ("scraped_url", VInt 1)])
     (-3);
   ClockRead].
Proof. vm_compute. reflexivity. Qed.


(** ** The distance annotation (C4) *)

Lemma radians_90 : radians 90 = (PI / 2)%R.
Proof. unfold radians. lra. Qed.

Lemma radians_0 : radians 0 = 0%R.
Proof. unfold radians. lra. Qed.

(** The formula between the pole and a point on the equator: a quarter of
    a great circle. *)
Lemma equator_to_pole_km :
  standard_haversine_km 0 90 90 90 = (2 * AVG_EARTH_RADIUS * (PI / 4))%R.
Proof.
  unfold standard_haversine_km. rewrite radians_90, radians_0.
  replace ((PI / 2 - 0) * / 2)%R with (PI / 4)%R by lra.
  replace ((PI / 2 - PI / 2) * / 2)%R with 0%R by lra.
  rewrite cos_PI2, sin_0, sin_PI4.
  replace ((1 / sqrt 2)² + cos 0 * 0 * 0²)%R with ((/ sqrt 2)²)%R
    by (unfold Rsqr; lra).
  rewrite sqrt_Rsqr.
  - now rewrite asin_inv_sqrt2.
  - left. apply Rinv_0_lt_compat, sqrt_lt_R0. lra.
Qed.

(** The formula with the two coordinates of each point exchanged. *)
Lemma exchanged_km : standard_haversine_km 90 0 90 90 = 0%R.
Proof.
  unfold standard_haversine_km. rewrite radians_90, radians_0.
  replace ((PI / 2 - PI / 2) * / 2)%R with 0%R by lra.
  rewrite cos_PI2, sin_0.
  replace (0² + 0 * 0 * (sin ((PI / 2 - 0) * / 2))²)%R with 0%R
    by (unfold Rsqr; lra).
  rewrite sqrt_0, asin_0. lra.
Qed.

(** C4, what the code does: [compute_distance] hands the stored
    [[longitude, latitude]] pairs to the haversine package as they are, and
    the package reads the first component of a point as its latitude. For
    a station on the equator at longitude 90 and the reference point at the
    pole the annotation is 0, while the great-circle distance is a quarter
    of the circumference. *)
Theorem compute_distance_exchanges_axes `{Externals} :
  haversine_contract ->
  (forall (station : Dict.t value) (kind : value) (lng lat at_lng at_lat : R),
     Dict.get station "loc" =
       Some (VDict [("type", kind);
                    ("coordinates", VList [VFloat lng; VFloat lat])]) ->
     compute_distance station (VList [VFloat at_lng; VFloat at_lat]) =
     Ok (Dict.set station "distance"
           (VFloat (standard_haversine_km lng lat at_lng at_lat * 1000)%R)))
  /\
  compute_distance
    [("loc", VDict [("type", VStr "Point");
                    ("coordinates", VList [VFloat 90; VFloat 0])])]
    (VList [VFloat 90; VFloat 90]) =
  Ok [("loc", VDict [("type", VStr "Point");
                     ("coordinates", VList [VFloat 90; VFloat 0])]);
      ("distance", VFloat 0)]
  /\
  (standard_haversine_km 0 90 90 90 * 1000 > 0)%R.
Proof.
  intros Hpackage.
  assert (Hgeneral : forall (station : Dict.t value) (kind : value)
                            (lng lat at_lng at_lat : R),
     Dict.get station "loc" =
       Some (VDict [("type", kind);
                    ("coordinates", VList [VFloat lng; VFloat lat])]) ->
     compute_distance station (VList [VFloat at_lng; VFloat at_lat]) =
     Ok (Dict.set station "distance"
           (VFloat (standard_haversine_km lng lat at_lng at_lat * 1000)%R))).
  { intros station kind lng lat at_lng at_lat Hloc.
    unfold compute_distance, getitem. rewrite Hloc. simpl.
    now rewrite Hpackage. }
  split; [exact Hgeneral|]. split.
  - rewrite (Hgeneral
               [("loc", VDict [("type", VStr "Point");
                               ("coordinates", VList [VFloat 90; VFloat 0])])]
               (VStr "Point") 90%R 0%R 90%R 90%R eq_refl).
    rewrite exchanged_km, Rmult_0_l. reflexivity.
  - rewrite equator_to_pole_km. unfold AVG_EARTH_RADIUS.
    pose proof PI_RGT_0. lra.
Qed.

Lemma sample_package_contract : haversine_contract (H := Sample.world).
Proof. intros lat1 lng1 lat2 lng2. reflexivity. Qed.

Lemma compute_distance_exchanges_axes_witness :
  haversine_contract (H := Sample.world) /\
  compute_distance (H := Sample.world)
    [("loc", VDict [("type", VStr "Point");
                    ("coordinates", VList [VFloat 90; VFloat 0])])]
    (VList [VFloat 90; VFloat 90]) =
  Ok [("loc", VDict [("type", VStr "Point");
                     ("coordinates", VList [VFloat 90; VFloat 0])]);
      ("distance", VFloat 0)].
Proof.
  split; [exact sample_package_contract|].
  exact (proj1 (proj2 (compute_distance_exchanges_axes (H := Sample.world)
                         sample_package_contract))).
Defined.

(** * Further properties *)

(** ** The geocode cache beyond the claims *)

Section GeocodeMore.

Context `{Externals}.
Variables (address : string) (http_timeout : R) (expire_ttl : Z).

Let key : string := ("address:" ++ slugify address)%string.

Lemma geocode_uncached_run (s : state) :
  snd (geocode address false http_timeout expire_ttl s)
    = emit (GeocoderGet address) s /\
  redis (snd (geocode address false http_timeout expire_ttl s)) = redis s /\
  calls (geocode address false http_timeout expire_ttl) s
    = [GeocoderGet address].
Proof.
  assert (Hsnd : snd (geocode address false http_timeout expire_ttl s)
                 = emit (GeocoderGet address) s).
  { unfold geocode, mbind, M_bind, requests_get, try_except_IndexError, lift.
    destruct (geocoder address) as [reply|e]; [|reflexivity].
    destruct (raw_location_of reply) as [raw|e]; [reflexivity|].
    destruct e; reflexivity. }
  split; [exact Hsnd|]. split; [now rewrite Hsnd|].
  apply calls_app. now rewrite Hsnd.
Qed.

(** X1. With [cache=False], [geocode] leaves redis alone: whatever the
    geocoder answers, its only outside call is the request to the
    geocoder, and nothing is read from or written to the cache. *)
Theorem geocode_uncached_leaves_redis (s : state) :
  snd (geocode address false http_timeout expire_ttl s)
    = emit (GeocoderGet address) s /\
  redis (snd (geocode address false http_timeout expire_ttl s)) = redis s /\
  calls (geocode address false http_timeout expire_ttl) s
    = [GeocoderGet address].
Proof. apply geocode_uncached_run. Qed.

Lemma geocode_failed_miss_run (s : state) :
  redis s !! key = None ->
  (forall reply raw_location,
     geocoder address = Ok reply -> raw_location_of reply <> Ok raw_location) ->
  redis (snd (geocode address true http_timeout expire_ttl s)) = redis s /\
  calls (geocode address true http_timeout expire_ttl) s
    = [RedisGet key; GeocoderGet address].
Proof.
  intros Hmiss Hbad.
  assert (Hsnd : snd (geocode address true http_timeout expire_ttl s)
                 = State (redis s)
                         (trace s ++ [RedisGet key; GeocoderGet address])).
  { unfold geocode, mbind, M_bind, redis_get. fold key. rewrite Hmiss. simpl.
    unfold requests_get, try_except_IndexError, lift, emit. simpl.
    destruct (geocoder address) as [reply|e] eqn:Hreply;
      [|now rewrite <- app_assoc].
    destruct (raw_location_of reply) as [raw|e] eqn:Hraw.
    - exfalso. exact (Hbad reply raw eq_refl Hraw).
    - destruct e; simpl; now rewrite <- app_assoc. }
  split; [now rewrite Hsnd|]. apply calls_app. now rewrite Hsnd.
Qed.

(** X2. A miss that does not end with a pair is never cached: when the
    geocoder fails, or its reply has no first result with a location (the
    exception object of line 103 included), redis is as before and the
    calls are the read of the cache and the one request. *)
Theorem geocode_failure_not_cached (s : state) :
  redis s !! key = None ->
  (forall reply raw_location,
     geocoder address = Ok reply -> raw_location_of reply <> Ok raw_location) ->
  redis (snd (geocode address true http_timeout expire_ttl s)) = redis s /\
  calls (geocode address true http_timeout expire_ttl) s
    = [RedisGet key; GeocoderGet address].
Proof. apply geocode_failed_miss_run. Qed.

(** X3. An entry that does not decode stays: a hit whose bytes [loads]
    rejects raises that error, yet the entry keeps its bytes and gets the
    full time to live again, so the next call fails in the same way without
    ever asking the geocoder. *)
Theorem geocode_corrupt_entry_persists (s : state) (v : string)
    (remaining : Z) (e : exn) :
  redis s !! key = Some (v, remaining) ->
  loads v = Raise e ->
  let run := geocode address true http_timeout expire_ttl in
  fst (run s) = Raise e /\
  redis (snd (run s)) !! key = Some (v, expire_ttl) /\
  fst (run (snd (run s))) = Raise e /\
  count_events is_geocoder_call (calls run s ++ calls run (snd (run s)))
    = 0%nat.
Proof.
  intros Hhit Hloads run.
  pose proof (geocode_hit address http_timeout expire_ttl s v remaining Hhit)
    as Hfirst.
  fold key in Hfirst. fold run in Hfirst.
  assert (Hentry : redis (snd (run s)) !! key = Some (v, expire_ttl)).
  { rewrite Hfirst. simpl. apply lookup_insert_eq. }
  pose proof (geocode_hit address http_timeout expire_ttl (snd (run s)) v
                expire_ttl Hentry) as Hsecond.
  fold key in Hsecond. fold run in Hsecond.
  assert (Hc1 : calls run s = [RedisGet key; RedisExpire key expire_ttl])
    by (apply calls_app; now rewrite Hfirst).
  assert (Hc2 : calls run (snd (run s))
                = [RedisGet key; RedisExpire key expire_ttl])
    by (apply calls_app; now rewrite Hsecond).
  split; [now rewrite Hfirst|]. split; [exact Hentry|].
  split; [now rewrite Hsecond|]. now rewrite Hc1, Hc2.
Qed.

End GeocodeMore.

Lemma geocode_failure_not_cached_witness :
  redis (snd (geocode (H := Sample.world) "nowhere" true (1 / 10)%R 86400
                Sample.idle)) = redis Sample.idle /\
  calls (geocode (H := Sample.world) "nowhere" true (1 / 10)%R 86400)
        Sample.idle
    = [RedisGet "address:nowhere"; GeocoderGet "nowhere"].
Proof.
  apply (geocode_failure_not_cached (H := Sample.world) "nowhere"
           (1 / 10)%R 86400 Sample.idle eq_refl).
  intros reply raw Hreply. injection Hreply as <-. discriminate.
Defined.

Lemma geocode_corrupt_entry_persists_witness :
  let s := State {["address:Ljubljana" := ("not json", 5%Z)]} [] in
  let run := geocode (H := Sample.world) "Ljubljana" true (1 / 10)%R 86400 in
  fst (run s) = Raise ValueError /\
  redis (snd (run s)) !! "address:Ljubljana" = Some ("not json", 86400%Z) /\
  fst (run (snd (run s))) = Raise ValueError.
Proof.
  intros s run.
  destruct (geocode_corrupt_entry_persists (H := Sample.world) "Ljubljana"
              (1 / 10)%R 86400 s "not json" 5%Z ValueError
              eq_refl eq_refl) as (H1 & H2 & H3 & _).
  split; [exact H1|]. split; [exact H2|exact H3].
Defined.

Section Frame.

Context `{Externals}.

Lemma touches_only_ret {A} (key : string) (a : A) : touches_only key (mret a).
Proof. intros s k _. reflexivity. Qed.

Lemma touches_only_lift {A} (key : string) (r : result A) :
  touches_only key (lift r).
Proof. intros s k _. reflexivity. Qed.

Lemma touches_only_bind {A B} (key : string) (m : M A) (f : A -> M B) :
  touches_only key m -> (forall a, touches_only key (f a)) ->
  touches_only key (m ≫= f).
Proof.
  intros Hm Hf s k Hk. unfold mbind, M_bind.
  specialize (Hm s k Hk).
  destruct (m s) as [[a|e] s']; simpl in Hm; [|exact Hm].
  now rewrite (Hf a s' k Hk).
Qed.

Lemma touches_only_try {A} (key : string) (body handler : M A) :
  touches_only key body -> touches_only key handler ->
  touches_only key (try_except_IndexError body handler).
Proof.
  intros Hb Hh s k Hk. unfold try_except_IndexError.
  specialize (Hb s k Hk).
  destruct (body s) as [[a|e] s']; simpl in Hb; [exact Hb|].
  destruct e; try exact Hb. now rewrite (Hh s' k Hk).
Qed.

Lemma touches_only_get (key key' : string) : touches_only key (redis_get key').
Proof. intros s k _. reflexivity. Qed.

Lemma touches_only_expire (key : string) (ttl : Z) :
  touches_only key (redis_expire key ttl).
Proof. intros s k Hk. simpl. now apply lookup_alter_ne. Qed.

Lemma touches_only_set (key val : string) (ttl : Z) :
  touches_only key (redis_set key val ttl).
Proof. intros s k Hk. simpl. now apply lookup_insert_ne. Qed.

Lemma touches_only_request (key address : string) :
  touches_only key (requests_get address).
Proof. intros s k _. reflexivity. Qed.

(** X4. [geocode] touches one cache entry only, the one of the address's
    slug: every other key of redis has the same bytes and time to live
    after the call as before, whatever the cache flag and the outcome. *)
Theorem geocode_touches_own_entry (address : string) (cache : bool)
    (http_timeout : R) (expire_ttl : Z) :
  touches_only ("address:" ++ slugify address)%string
               (geocode address cache http_timeout expire_ttl).
Proof.
  unfold geocode.
  destruct cache;
    repeat first
      [ apply touches_only_ret
      | apply touches_only_lift
      | apply touches_only_get
      | apply touches_only_expire
      | apply touches_only_set
      | apply touches_only_request
      | apply touches_only_try
      | apply touches_only_bind
      | intros [?|]
      | intro ].
Qed.

(** X5. Addresses with one slug share one entry: once the first is
    resolved and cached, a lookup of the second is served from that entry,
    with no request to the geocoder, and returns the first one's pair. *)
Theorem geocode_same_slug_shares_entry (address address' : string)
    (http_timeout : R) (expire_ttl : Z) (s : state)
    (reply raw_location : value) :
  slugify address' = slugify address ->
  redis s !! ("address:" ++ slugify address)%string = None ->
  geocoder address = Ok reply ->
  raw_location_of reply = Ok raw_location ->
  let after := snd (geocode address true http_timeout expire_ttl s) in
  fst (geocode address' true http_timeout expire_ttl after)
    = loads (dumps raw_location) /\
  count_events is_geocoder_call
    (calls (geocode address' true http_timeout expire_ttl) after) = 0%nat.
Proof.
  intros Hslug Hmiss Hreply Hraw after.
  pose proof (geocode_miss address http_timeout expire_ttl s reply
                raw_location Hmiss Hreply Hraw) as Hfirst.
  assert (Hentry : redis after !! ("address:" ++ slugify address')%string
                   = Some (dumps raw_location, expire_ttl)).
  { unfold after. rewrite Hfirst, Hslug. simpl. apply lookup_insert_eq. }
  pose proof (geocode_hit address' http_timeout expire_ttl after _ _ Hentry)
    as Hsecond.
  split; [now rewrite Hsecond|].
  erewrite calls_app; [|rewrite Hsecond; reflexivity]. reflexivity.
Qed.

End Frame.

Lemma geocode_touches_own_entry_witness :
  let s := State {["address:Maribor" := ("[15.6, 46.5]", 40%Z)]} [] in
  redis (snd (geocode (H := Sample.world) "Ljubljana" true (1 / 10)%R 86400
                s)) !! "address:Maribor"
  = Some ("[15.6, 46.5]", 40%Z).
Proof.
  intros s.
  exact (geocode_touches_own_entry (H := Sample.world) "Ljubljana" true
           (1 / 10)%R 86400 s "address:Maribor" ltac:(discriminate)).
Defined.

Lemma geocode_same_slug_shares_entry_witness :
  let after := snd (geocode (H := Folded.world) "Ljubljana" true (1 / 10)%R
                      86400 Sample.idle) in
  Folded.slug "LJUBLJANA" = Folded.slug "Ljubljana" /\
  "LJUBLJANA" <> "Ljubljana" /\
  fst (geocode (H := Folded.world) "LJUBLJANA" true (1 / 10)%R 86400 after)
    = Ok Sample.ljubljana.
Proof.
  intros after.
  split; [reflexivity|]. split; [discriminate|].
  exact (proj1 (geocode_same_slug_shares_entry (H := Folded.world)
                  "Ljubljana" "LJUBLJANA" (1 / 10)%R 86400 Sample.idle
                  _ Sample.ljubljana eq_refl eq_refl eq_refl sample_reply)).
Defined.

(** ** Shaping of records beyond the claims *)

Lemma filter_keys_commute {V} (p : string -> bool) (d : Dict.t V) :
  Dict.keys (List.filter (fun '(key, _) => p key) d)
  = List.filter p (Dict.keys d).
Proof.
  induction d as [|[k v] d IH]; simpl; [reflexivity|].
  destruct (p k); simpl; now rewrite IH.
Qed.

(** X6. The record [simple_station] returns has the kept fields of the
    station in the station's order and nothing else: its keys are the keys
    of the station that contain a dot or are in [included_keys], and they
    are pairwise distinct. *)
Theorem simple_station_keeps_order (station out : Dict.t value)
    (included_keys : option (list string))
    (mapping : option (Dict.t mapped)) :
  Dict.wf station ->
  simple_station station included_keys mapping = Ok out ->
  Dict.keys out = List.filter (kept included_keys) (Dict.keys station) /\
  Dict.wf out.
Proof.
  intros Hwf Hs.
  destruct (simple_station_fields _ _ _ _ Hwf Hs) as [Hwfo _].
  split; [|exact Hwfo].
  unfold simple_station in Hs.
  match type of Hs with
  | context [mapR ?f ?l] => destruct (mapR f l) as [items|e] eqn:Hm
  end; simpl in Hs; [|discriminate].
  injection Hs as <-.
  apply transformed_items, transformed_keys in Hm.
  rewrite of_items_nodup.
  - rewrite Hm. apply (filter_keys_commute (kept included_keys)).
  - change (map fst items) with (Dict.keys items). rewrite Hm.
    apply (filter_wf _ _ Hwf).
Qed.

Lemma simple_station_keeps_order_witness :
  exists out,
    simple_station Sample.station
      (Some (base_keys ++ ["prices"; "distance"]))
      (Some (station_mapping (H := Sample.world))) = Ok out /\
    Dict.keys out
    = ["key"; "loc"; "address"; "updated_at"; "prices"; "scraped_url"].
Proof.
  destruct (simple_station Sample.station
              (Some (base_keys ++ ["prices"; "distance"]))
              (Some (station_mapping (H := Sample.world))))
    as [out|e] eqn:Hs; [|vm_compute in Hs; discriminate].
  exists out. split; [reflexivity|].
  exact (proj1 (simple_station_keeps_order _ _ _ _ sample_station_wf Hs)).
Defined.

Lemma mapR_ok_iff {A B} (f : A -> result B) (l : list A) :
  (exists l', mapR f l = Ok l') <-> Forall (fun a => exists b, f a = Ok b) l.
Proof.
  induction l as [|a l IH]; simpl.
  - split; [constructor|eauto].
  - split.
    + intros [l' Hm].
      destruct (f a) as [b|e] eqn:Hfa; simpl in Hm; [|discriminate].
      destruct (mapR f l) as [bs|e] eqn:Hl; simpl in Hm; [|discriminate].
      constructor; [eauto|]. apply IH. eauto.
    + intros Hall. apply Forall_cons in Hall as [[b Hb] Hall].
      apply IH in Hall as [bs Hbs]. exists (b :: bs).
      now rewrite Hb, Hbs.
Qed.

(** X7. [simple_station] returns a record exactly when the transform of
    every kept field returns: a transform that raises on a kept field makes
    the whole record fail, and a transform of a dropped field is never
    run. *)
Theorem simple_station_returns_iff (station : Dict.t value)
    (included_keys : option (list string))
    (mapping : option (Dict.t mapped)) :
  (exists out, simple_station station included_keys mapping = Ok out) <->
  (forall key v,
     (key, v) ∈ station -> kept included_keys key = true ->
     exists r, result_of (transforms mapping) key v = Ok r).
Proof.
  unfold simple_station.
  set (f := fun '(key, v) =>
              r ← result_of (match mapping with None => [] | Some m => m end)
                            key v; Ok (key, r)).
  set (l := List.filter _ station).
  assert (Hiff : (exists items, mapR f l = Ok items) <->
                 (forall key v, (key, v) ∈ station ->
                    kept included_keys key = true ->
                    exists r, result_of (transforms mapping) key v = Ok r)).
  { rewrite mapR_ok_iff, Forall_forall. split.
    - intros Hall key v Hin Hkept.
      destruct (Hall (key, v)) as [[k r] Hf].
      { apply list_elem_of_In, filter_In. split;
          [now apply list_elem_of_In|exact Hkept]. }
      unfold f in Hf. unfold transforms.
      destruct (result_of _ key v) as [r0|e]; [eauto|discriminate].
    - intros Hall [key v] Hin.
      apply list_elem_of_In, filter_In in Hin as [Hin Hkept].
      destruct (Hall key v (proj2 (list_elem_of_In _ _) Hin) Hkept)
        as [r Hr].
      exists (key, r). unfold f. unfold transforms in Hr. now rewrite Hr. }
  rewrite <- Hiff. split.
  - intros [out Hout]. destruct (mapR f l) as [items|e]; [eauto|discriminate].
  - intros [items Hitems]. rewrite Hitems. simpl. eauto.
Qed.

(** A record whose [prices] field is not a mapping cannot be shaped. *)
Lemma simple_station_returns_iff_witness :
  ~ exists out,
      simple_station [("key", VStr "s1"); ("prices", VStr "n/a")]
        (Some (base_keys ++ ["prices"; "distance"]))
        (Some (station_mapping (H := Sample.world))) = Ok out.
Proof.
  intros Hout.
  pose proof (proj1 (simple_station_returns_iff _ _ _) Hout) as Hall.
  destruct (Hall "prices" (VStr "n/a")) as [r Hr].
  - apply list_elem_of_further, list_elem_of_here.
  - reflexivity.
  - discriminate Hr.
Defined.

(** ** Price enrichment beyond the claims *)

Lemma replace_id (a b : ascii) (s : string) :
  Str.contains a s = false -> Str.replace a b s = s.
Proof.
  induction s as [|c s IH]; simpl; [reflexivity|].
  intros Hc. apply orb_false_iff in Hc as [Hca Hs].
  now rewrite Hca, IH.
Qed.

Lemma get_app {V} (d d' : Dict.t V) (k : string) :
  Dict.get (d ++ d') k =
  match Dict.get d k with Some v => Some v | None => Dict.get d' k end.
Proof.
  induction d as [|[k0 v0] d IH]; simpl; [reflexivity|].
  now destruct (String.eqb k0 k).
Qed.

(** The value a comprehension leaves at a key is the one of the last item
    with that key. *)
Lemma fold_set_last {V} (items : list (string * V)) (d : Dict.t V)
    (k : string) :
  Dict.get (fold_left (fun d kv => Dict.set d (fst kv) (snd kv)) items d) k
  = match Dict.get (rev items) k with
    | Some v => Some v
    | None => Dict.get d k
    end.
Proof.
  revert d. induction items as [|[k0 v0] items IH]; simpl; intros d;
    [reflexivity|].
  rewrite IH, get_app. destruct (Dict.get (rev items) k); [reflexivity|].
  simpl. destruct (String.eqb_spec k0 k) as [->|Hne].
  - apply get_set_eq.
  - apply get_set_ne. congruence.
Qed.

Lemma of_items_last {V} (items : list (string * V)) (k : string) :
  Dict.get (Dict.of_items items) k = Dict.get (rev items) k.
Proof.
  unfold Dict.of_items. rewrite fold_set_last.
  now destruct (Dict.get (rev items) k).
Qed.

Lemma fold_set_length {V} (items : list (string * V)) (d : Dict.t V) :
  (length (fold_left (fun d kv => Dict.set d (fst kv) (snd kv)) items d)
   <= length d + length items)%nat.
Proof.
  revert d. induction items as [|[k0 v0] items IH]; simpl; intros d; [lia|].
  etransitivity; [apply IH|].
  assert (Hset : (length (Dict.set d k0 v0) <= S (length d))%nat).
  { clear. induction d as [|[k v] d IHd]; simpl; [lia|].
    destruct (String.eqb k k0); simpl; lia. }
  lia.
Qed.

Lemma unslugify_dict_facts (d : Dict.t value) :
  Dict.wf (unslugify_dict d) /\
  (forall k, k ∈ Dict.keys (unslugify_dict d) <->
             k ∈ map (Str.replace "-" "_") (Dict.keys d)) /\
  (forall k, k ∈ Dict.keys (unslugify_dict d) ->
             Str.contains "-" k = false) /\
  (length (unslugify_dict d) <= length d)%nat /\
  (forall k,
     Dict.get (unslugify_dict d) k =
     Dict.get (rev (map (fun '(key, v) => (Str.replace "-" "_" key, v)) d))
              k).
Proof.
  assert (Hkeys : forall k, k ∈ Dict.keys (unslugify_dict d) <->
                            k ∈ map (Str.replace "-" "_") (Dict.keys d)).
  { intros k. unfold unslugify_dict. rewrite of_items_keys.
    unfold Dict.keys. rewrite !map_map.
    erewrite map_ext; [reflexivity|]. now intros [k0 v0]. }
  split; [apply of_items_wf|]. split; [exact Hkeys|]. split; [|split].
  - intros k Hin. apply Hkeys in Hin.
    apply list_elem_of_In, in_map_iff in Hin as (k0 & <- & _).
    now apply replace_absent.
  - unfold unslugify_dict, Dict.of_items.
    etransitivity; [apply fold_set_length|]. simpl.
    now rewrite length_map.
  - intros k. apply of_items_last.
Qed.

(** X8. [unslugify_dict] for any mapping: the result is a dict (distinct
    keys) whose keys are the rewritten keys of the mapping, none with a
    hyphen; it has at most as many entries as the mapping; and where two
    keys are rewritten to one, the value of the later entry is the one
    kept. *)
Theorem unslugify_dict_merges_last (d : Dict.t value) :
  Dict.wf (unslugify_dict d) /\
  (forall k, k ∈ Dict.keys (unslugify_dict d) <->
             k ∈ map (Str.replace "-" "_") (Dict.keys d)) /\
  (forall k, k ∈ Dict.keys (unslugify_dict d) ->
             Str.contains "-" k = false) /\
  (length (unslugify_dict d) <= length d)%nat /\
  (forall k,
     Dict.get (unslugify_dict d) k =
     Dict.get (rev (map (fun '(key, v) => (Str.replace "-" "_" key, v)) d))
              k).
Proof. apply unslugify_dict_facts. Qed.

(** X9. [unslugify_dict] is idempotent: rewriting a rewritten mapping
    changes nothing. *)
Theorem unslugify_dict_idempotent (d : Dict.t value) :
  unslugify_dict (unslugify_dict d) = unslugify_dict d.
Proof.
  destruct (unslugify_dict_facts d) as (Hwf & _ & Hfree & _).
  set (u := unslugify_dict d) in *.
  assert (Hmap : map (fun '(key, v) => (Str.replace "-" "_" key, v)) u = u).
  { clear Hwf. induction u as [|[k v] u IH]; simpl; [reflexivity|].
    rewrite replace_id, IH; [reflexivity| |].
    - intros k' Hin. apply Hfree. simpl. apply elem_of_cons. now right.
    - apply Hfree. simpl. apply elem_of_cons. now left. }
  unfold unslugify_dict at 1. rewrite Hmap. now apply of_items_nodup.
Qed.

(** X10. [enrich_prices] of any mapping returns a list of
    [{type, price}] objects, at most one per entry and one per distinct
    rewritten key: each object's type is hyphen-free and is the rewritten
    key of an entry whose price it carries. Anything but a mapping raises
    [AttributeError]. *)
Theorem enrich_prices_objects (d : Dict.t value) :
  exists prices,
    enrich_prices (VDict d) =
      Ok (VList (map (fun '(k, v) => VDict [("type", VStr k); ("price", v)])
                     prices)) /\
    NoDup (map fst prices) /\
    (length prices <= length d)%nat /\
    (forall k v, (k, v) ∈ prices ->
       Str.contains "-" k = false /\
       exists key, (key, v) ∈ d /\ k = Str.replace "-" "_" key) /\
    (forall key, key ∈ Dict.keys d ->
                 Str.replace "-" "_" key ∈ map fst prices) /\
    (forall v, (forall d', v <> VDict d') ->
               enrich_prices v = Raise AttributeError).
Proof.
  destruct (unslugify_dict_facts d) as (Hwf & Hkeys & Hfree & Hlen & Hget).
  exists (unslugify_dict d). split; [reflexivity|].
  split; [exact Hwf|]. split; [exact Hlen|]. split; [|split].
  - intros k v Hin. split.
    + apply Hfree. change k with (fst (k, v)).
      now apply list_elem_of_fmap_2.
    + apply (in_items_get _ _ _ Hwf) in Hin. rewrite Hget in Hin.
      apply get_in_items, list_elem_of_In, in_rev, in_map_iff in Hin
        as ([key v'] & Heq & Hin).
      injection Heq as <- <-. exists key.
      split; [now apply list_elem_of_In|reflexivity].
  - intros key Hin. apply Hkeys.
    apply list_elem_of_In, in_map. now apply list_elem_of_In.
  - intros v Hv. destruct v; try reflexivity. now destruct (Hv d0).
Qed.

(** ** The request beyond the claims *)

Lemma station_keys_shape (args : list (string * string)) :
  exists keys,
    station_keys args = Ok keys /\
    (forall k : string, k ∈ ["key"; "loc"; "address"; "updated_at"; "scraped_url"] ->
               k ∈ keys) /\
    (forall k : string, k ∈ keys -> k ∈ base_keys \/ exists p, k = price_field p) /\
    ~ "distance" ∈ keys /\
    ~ "_id" ∈ keys.
Proof.
  assert (Hshape : forall keys : list string,
            (forall k : string, k ∈ keys -> k ∈ base_keys \/ exists p, k = price_field p)
            -> ~ "distance" ∈ keys /\ ~ "_id" ∈ keys).
  { intros keys Hk. split; intros Hin; apply Hk in Hin as [Hin|[p Hp]];
      try discriminate Hp;
      unfold base_keys in Hin; rewrite !elem_of_cons, elem_of_nil in Hin;
      intuition discriminate. }
  assert (Hbase : exists keys,
            Ok base_keys = Ok keys /\
            (forall k : string, k ∈ ["key"; "loc"; "address"; "updated_at";
                            "scraped_url"] -> k ∈ keys) /\
            (forall k : string, k ∈ keys ->
                       k ∈ base_keys \/ exists p, k = price_field p) /\
            ~ "distance" ∈ keys /\ ~ "_id" ∈ keys).
  { exists base_keys. split; [reflexivity|]. split; [|split].
    - intros k. unfold base_keys. rewrite !elem_of_cons. tauto.
    - intros k Hin. now left.
    - apply Hshape. intros k Hin. now left. }
  unfold station_keys.
  destruct (args_get args "prices") as [prices|]; [|exact Hbase].
  destruct (truthy (VStr prices)); [|exact Hbase].
  exists (["key"; "loc"; "address"; "updated_at"; "scraped_url"] ++
          map price_field (Str.split "," prices)).
  split; [reflexivity|].
  assert (Hk : forall k,
            k ∈ ["key"; "loc"; "address"; "updated_at"; "scraped_url"] ++
                map price_field (Str.split "," prices) ->
            k ∈ base_keys \/ exists p, k = price_field p).
  { intros k Hin. apply elem_of_app in Hin as [Hin|Hin].
    - left. unfold base_keys. rewrite !elem_of_cons in *. tauto.
    - right. apply list_elem_of_In, in_map_iff in Hin as (p & <- & _). eauto. }
  split; [|split; [exact Hk|now apply Hshape]].
  intros k Hin. apply elem_of_app. now left.
Qed.

(** X11. [station_keys] never raises: the [keys.remove('prices')] of
    line 42 always finds the bare field. The store is always asked for the
    five plain fields, and never for [distance] or [_id]; every asked field
    is a base field or a [prices.<token>] path. *)
Theorem station_keys_always (args : list (string * string)) :
  exists keys,
    station_keys args = Ok keys /\
    (forall k : string, k ∈ ["key"; "loc"; "address"; "updated_at"; "scraped_url"] ->
               k ∈ keys) /\
    (forall k : string, k ∈ keys -> k ∈ base_keys \/ exists p, k = price_field p) /\
    ~ "distance" ∈ keys /\
    ~ "_id" ∈ keys.
Proof. apply station_keys_shape. Qed.

Section Response.

Context `{Externals}.
Variable config : gmap string string.
Variable args : list (string * string).

Lemma filter_keys_kept {V} (p : string -> bool) (d : Dict.t V) (k : string) :
  k ∈ Dict.keys (List.filter (fun '(key, _) => p key) d) -> p k = true.
Proof.
  rewrite filter_keys_commute. intros Hin.
  now apply list_elem_of_In, filter_In in Hin as [_ Hp].
Qed.

Lemma simple_station_keys_kept (station out : Dict.t value)
    (included_keys : option (list string))
    (mapping : option (Dict.t mapped)) (k : string) :
  simple_station station included_keys mapping = Ok out ->
  k ∈ Dict.keys out -> kept included_keys k = true.
Proof.
  unfold simple_station. intros Hs Hin.
  match type of Hs with
  | context [mapR ?f ?l] => destruct (mapR f l) as [items|e] eqn:Hm
  end; simpl in Hs; [|discriminate].
  injection Hs as <-. apply (proj1 (of_items_keys _ _)) in Hin.
  apply transformed_items, transformed_keys in Hm.
  change (map fst items) with (Dict.keys items) in Hin.
  rewrite Hm in Hin. now apply (filter_keys_kept (kept included_keys)) in Hin.
Qed.

(** What [stations_of] returns, record by record. *)
Lemma stations_of_each (included_keys : list string) (at_ : value)
    (records stations : list (Dict.t value)) :
  stations_of included_keys at_ records = Ok stations ->
  Forall2 (fun record station =>
             exists shaped,
               simple_station record (Some included_keys)
                              (Some station_mapping) = Ok shaped /\
               (if truthy at_
                then compute_distance shaped at_ = Ok station
                else station = shaped))
          records stations.
Proof.
  unfold stations_of. intros Hs.
  destruct (mapR _ records) as [shaped|e] eqn:Hshaped; simpl in Hs;
    [|discriminate].
  apply mapR_Forall2 in Hshaped.
  destruct (truthy at_).
  - apply mapR_Forall2 in Hs. revert stations Hs.
    induction Hshaped as [|record sh records shaped Hsh _ IH];
      intros stations Hs; inversion Hs; subst; constructor; eauto.
  - injection Hs as <-.
    induction Hshaped as [|record sh records shaped Hsh _ IH];
      constructor; eauto.
Qed.

(** X12. A successful response has one station per record of the store,
    in the store's order: the i-th station is the i-th record shaped by
    [simple_station] and, with a reference point, annotated by
    [compute_distance]; no record is dropped, added or moved. *)
Theorem response_follows_store_order (s s' : state) (response : value) :
  list_stations config args s = (Ok response, s') ->
  exists keys at_ where_ limit records stations elapsed,
    store_find (VDict where_) (VDict (projection_of keys)) limit
      = Ok records /\
    response = VDict [("status", VStr "ok");
                      ("stations", VList (map VDict stations));
                      ("executed_in", VFloat elapsed)] /\
    length stations = length records /\
    Forall2 (fun record station =>
               exists shaped,
                 simple_station record (Some (keys ++ ["prices"; "distance"]))
                                (Some station_mapping) = Ok shaped /\
                 (if truthy at_
                  then compute_distance shaped at_ = Ok station
                  else station = shaped))
            records stations.
Proof.
  intros Hrun.
  apply list_stations_ok in Hrun
    as (keys & at_ & s1 & w & limit & records & stations & elapsed &
        _ & _ & _ & _ & Hfind & Hst & ->).
  exists keys, at_, w, limit, records, stations, elapsed.
  apply stations_of_each in Hst.
  split; [exact Hfind|]. split; [reflexivity|].
  split; [symmetry; now apply Forall2_length in Hst|exact Hst].
Qed.

(** X13. A record of a successful response has no field but those of
    the request: each of its keys contains a dot, or is an asked field, or
    is [prices] or [distance]. The [_id] that the store adds never reaches
    the response. *)
Theorem response_fields_are_asked (s s' : state) (response : value) :
  list_stations config args s = (Ok response, s') ->
  exists keys stations elapsed,
    station_keys args = Ok keys /\
    response = VDict [("status", VStr "ok");
                      ("stations", VList (map VDict stations));
                      ("executed_in", VFloat elapsed)] /\
    Forall (fun station =>
              (forall k, k ∈ Dict.keys station -> response_field keys k) /\
              Dict.get station "_id" = None)
           stations.
Proof.
  intros Hrun.
  apply list_stations_ok in Hrun
    as (keys & at_ & s1 & w & limit & records & stations & elapsed &
        Hkeys & _ & _ & _ & _ & Hst & ->).
  exists keys, stations, elapsed. split; [exact Hkeys|].
  split; [reflexivity|].
  assert (Hkept : forall k,
            kept (Some (keys ++ ["prices"; "distance"])) k = true ->
            response_field keys k).
  { intros k Hk. unfold kept in Hk. apply orb_true_iff in Hk as [Hdot|Hmem].
    - now left.
    - apply mem_elem_of in Hmem.
      rewrite elem_of_app, !elem_of_cons, elem_of_nil in Hmem.
      unfold response_field. tauto. }
  assert (Hid : ~ response_field keys "_id").
  { destruct (station_keys_shape args) as (keys' & Hk' & _ & _ & _ & Hno).
    rewrite Hkeys in Hk'. injection Hk' as <-.
    intros [Hdot|[Hin|[Heq|Heq]]]; try discriminate. contradiction. }
  apply stations_of_each in Hst.
  induction Hst as [|record station records stations
                      (shaped & Hshaped & Hdist) _ IH]; constructor; [|exact IH].
  assert (Hfields : forall k, k ∈ Dict.keys station -> response_field keys k).
  { intros k Hin. destruct (truthy at_).
    - unfold compute_distance in Hdist.
      repeat match type of Hdist with
             | context [mbind _ ?r] =>
                 destruct r; simpl in Hdist; [|discriminate]
             end.
      injection Hdist as <-. apply keys_set_in in Hin as [->|Hin].
      + unfold response_field. tauto.
      + apply Hkept. eapply simple_station_keys_kept; eassumption.
    - subst station. apply Hkept.
      eapply simple_station_keys_kept; eassumption. }
  split; [exact Hfields|].
  apply get_none_keys. intros Hin. apply Hid. now apply Hfields.
Qed.

(** X14. With a reference point, every record of a successful response
    carries a [distance], a float: the counterpart of the case without
    one. *)
Theorem resolved_point_annotates_all (s s' s1 : state)
    (response at_ : value) :
  list_stations config args s = (Ok response, s') ->
  reference_point args (emit ClockRead s) = (Ok at_, s1) ->
  truthy at_ = true ->
  exists stations elapsed,
    response = VDict [("status", VStr "ok");
                      ("stations", VList (map VDict stations));
                      ("executed_in", VFloat elapsed)] /\
    Forall (fun station =>
              exists metres, Dict.get station "distance" = Some (VFloat metres))
           stations.
Proof.
  intros Hrun Href Htrue.
  apply list_stations_ok in Hrun
    as (keys & at' & s1' & w & limit & records & stations & elapsed &
        _ & Href' & _ & _ & _ & Hst & ->).
  rewrite Href in Href'. injection Href' as <- <-.
  exists stations, elapsed. split; [reflexivity|].
  apply stations_of_each in Hst. rewrite Htrue in Hst.
  induction Hst as [|record station records stations
                      (shaped & _ & Hdist) _ IH]; constructor; [|exact IH].
  unfold compute_distance in Hdist.
  repeat match type of Hdist with
         | context [mbind _ ?r] =>
             destruct r; simpl in Hdist; [|discriminate]
         end.
  injection Hdist as <-. eexists. apply get_set_eq.
Qed.

End Response.

Lemma sample_priced_run :
  exists response s',
    list_stations (H := Sample.world) Sample.config
      [("prices", "diesel"); ("at", "14.5,46.05")] Sample.idle
    = (Ok response, s').
Proof.
  destruct (list_stations (H := Sample.world) Sample.config
              [("prices", "diesel"); ("at", "14.5,46.05")] Sample.idle)
    as [[response|e] s'] eqn:Hrun; [eauto|].
  vm_compute in Hrun. discriminate.
Qed.

Lemma response_follows_store_order_witness :
  exists (records stations : list (Dict.t value)) elapsed,
    fst (list_stations (H := Sample.world) Sample.config
           [("prices", "diesel"); ("at", "14.5,46.05")] Sample.idle)
    = Ok (VDict [("status", VStr "ok");
                 ("stations", VList (map VDict stations));
                 ("executed_in", VFloat elapsed)]) /\
    length stations = length records.
Proof.
  destruct sample_priced_run as (response & s' & Hrun).
  destruct (response_follows_store_order (H := Sample.world) _ _ _ _ _ Hrun)
    as (keys & at_ & w & limit & records & stations & elapsed &
        _ & -> & Hlen & _).
  exists records, stations, elapsed. rewrite Hrun. split; [reflexivity|].
  exact Hlen.
Defined.

Lemma response_fields_are_asked_witness :
  exists stations elapsed,
    fst (list_stations (H := Sample.world) Sample.config
           [("prices", "diesel"); ("at", "14.5,46.05")] Sample.idle)
    = Ok (VDict [("status", VStr "ok");
                 ("stations", VList (map VDict stations));
                 ("executed_in", VFloat elapsed)]) /\
    Forall (fun station => Dict.get station "_id" = None) stations.
Proof.
  destruct sample_priced_run as (response & s' & Hrun).
  destruct (response_fields_are_asked (H := Sample.world) _ _ _ _ _ Hrun)
    as (keys & stations & elapsed & _ & -> & Hall).
  exists stations, elapsed. rewrite Hrun. split; [reflexivity|].
  eapply Forall_impl; [exact Hall|]. now intros station [_ Hid].
Defined.

Lemma resolved_point_annotates_all_witness :
  exists stations elapsed,
    fst (list_stations (H := Sample.world) Sample.config
           [("prices", "diesel"); ("at", "14.5,46.05")] Sample.idle)
    = Ok (VDict [("status", VStr "ok");
                 ("stations", VList (map VDict stations));
                 ("executed_in", VFloat elapsed)]) /\
    Forall (fun station =>
              exists metres, Dict.get station "distance" = Some (VFloat metres))
           stations.
Proof.
  destruct sample_priced_run as (response & s' & Hrun).
  assert (Href : exists lng lat,
            reference_point (H := Sample.world)
              [("prices", "diesel"); ("at", "14.5,46.05")]
              (emit ClockRead Sample.idle)
            = (Ok (VList [VFloat lng; VFloat lat]),
               emit ClockRead Sample.idle))
    by (do 2 eexists; reflexivity).
  destruct Href as (lng & lat & Href).
  destruct (resolved_point_annotates_all (H := Sample.world) _ _ _ _ _ _ _
              Hrun Href eq_refl)
    as (stations & elapsed & -> & Hall).
  exists stations, elapsed. rewrite Hrun. split; [reflexivity|exact Hall].
Defined.

Section Failures.

Context `{Externals}.
Variable config : gmap string string.
Variable args : list (string * string).

Lemma mapR_float_malformed (tokens : list string) (token : string) :
  token ∈ tokens -> py_float token = None ->
  mapR float_of tokens = Raise ValueError.
Proof.
  induction tokens as [|a tokens IH]; intros Hin Hbad.
  - now apply elem_of_nil in Hin.
  - simpl. destruct (py_float a) as [r|] eqn:Ha.
    + assert (Hfa : float_of a = Ok r) by (unfold float_of; now rewrite Ha).
      rewrite Hfa. simpl.
      apply elem_of_cons in Hin as [->|Hin]; [congruence|].
      now rewrite IH.
    + assert (Hfa : float_of a = Raise ValueError)
        by (unfold float_of; now rewrite Ha).
      now rewrite Hfa.
Qed.

(** X15. A malformed [at] fails the request at once, even when [near]
    is given and would take its place: if one non-empty token of [at] is
    not a number, [list_stations] raises [ValueError] having read the clock
    and nothing else; no cache entry is read, the geocoder and the store are
    not called. *)
Theorem malformed_at_fails_first (s : state) (raw_at token : string) :
  args_get args "at" = Some raw_at ->
  token ∈ Str.split "," raw_at ->
  token <> "" ->
  py_float token = None ->
  parse_at args = Raise ValueError /\
  list_stations config args s = (Raise ValueError, emit ClockRead s) /\
  calls (list_stations config args) s = [ClockRead].
Proof.
  intros Hat Hin Hne Hbad.
  assert (Hparse : parse_at args = Raise ValueError).
  { unfold parse_at. rewrite Hat.
    rewrite (mapR_float_malformed _ token); [reflexivity| |exact Hbad].
    apply list_elem_of_In, filter_In. split; [now apply list_elem_of_In|].
    destruct (String.eqb_spec token ""); [contradiction|reflexivity]. }
  assert (Hrun : list_stations config args s
                 = (Raise ValueError, emit ClockRead s)).
  { destruct (station_keys_shape args) as (keys & Hkeys & _).
    unfold list_stations, mbind, M_bind, time, lift, reference_point.
    rewrite Hkeys. unfold mbind, M_bind, lift. now rewrite Hparse. }
  split; [exact Hparse|]. split; [exact Hrun|].
  apply calls_app. now rewrite Hrun.
Qed.

(** X16. A [limit] that is not an integer fails the request before the
    store is asked anything: [safe_limit] raises [ValueError] (the default
    is not used in its place), [list_stations] returns no response and
    makes no query of the store. *)
Theorem malformed_limit_never_queries (s : state) (raw_limit : string) :
  args_get args "limit" = Some raw_limit ->
  py_int raw_limit = None ->
  safe_limit config args "LIST_LIMIT" "LIST_DEFAULT_COUNT" "limit"
    = Raise ValueError /\
  (forall response, fst (list_stations config args s) <> Ok response) /\
  count_events is_store_find (calls (list_stations config args) s) = 0%nat.
Proof.
  intros Hlimit Hbad.
  assert (Hsafe : safe_limit config args "LIST_LIMIT" "LIST_DEFAULT_COUNT"
                    "limit" = Raise ValueError).
  { unfold safe_limit. rewrite Hlimit. simpl. now rewrite Hbad. }
  split; [exact Hsafe|]. split.
  - intros response Hok.
    destruct (list_stations config args s) as [r s'] eqn:Hrun.
    simpl in Hok. subst r.
    apply list_stations_ok in Hrun
      as (? & ? & ? & ? & limit & ? & ? & ? & _ & _ & _ & Hl & _).
    rewrite Hsafe in Hl. discriminate.
  - unfold count_events.
    destruct (List.filter is_store_find (calls (list_stations config args) s))
      as [|q rest] eqn:Hf; [reflexivity|].
    assert (Hin : In q (List.filter is_store_find
                          (calls (list_stations config args) s)))
      by (rewrite Hf; now left).
    apply filter_In in Hin as [Hin Hq].
    destruct q; try discriminate Hq.
    apply list_elem_of_In, list_stations_query in Hin
      as (? & ? & ? & ? & _ & _ & _ & Hl & _).
    rewrite Hsafe in Hl. discriminate.
Qed.

End Failures.

Lemma malformed_at_fails_first_witness :
  list_stations (H := Sample.world) Sample.config
    [("near", "Ljubljana"); ("at", "14.5,north")] Sample.idle
  = (Raise ValueError, emit ClockRead Sample.idle).
Proof.
  refine (proj1 (proj2 (malformed_at_fails_first (H := Sample.world)
            Sample.config [("near", "Ljubljana"); ("at", "14.5,north")]
            Sample.idle "14.5,north" "north" eq_refl _ _ eq_refl))).
  - apply list_elem_of_further, list_elem_of_here.
  - discriminate.
Defined.

Lemma malformed_limit_never_queries_witness :
  safe_limit (H := Sample.world) Sample.config [("limit", "ten")]
    "LIST_LIMIT" "LIST_DEFAULT_COUNT" "limit" = Raise ValueError /\
  count_events is_store_find
    (calls (list_stations (H := Sample.world) Sample.config
              [("limit", "ten")]) Sample.idle) = 0%nat.
Proof.
  destruct (malformed_limit_never_queries (H := Sample.world) Sample.config
              [("limit", "ten")] Sample.idle "ten" eq_refl eq_refl)
    as (Hsafe & _ & Hcalls).
  split; [exact Hsafe|exact Hcalls].
Defined.

Lemma count_quiet (evs : list event) :
  Forall no_find evs -> count_events is_store_find evs = 0%nat.
Proof.
  unfold count_events. induction 1 as [|e evs He _ IH]; simpl; [reflexivity|].
  unfold no_find in He. now rewrite He.
Qed.

Lemma count_events_app (p : event -> bool) (l l' : list event) :
  count_events p (l ++ l') = (count_events p l + count_events p l')%nat.
Proof. unfold count_events. now rewrite List.filter_app, length_app. Qed.

Section Calls.

Context `{Externals}.
Variable config : gmap string string.
Variable args : list (string * string).

(** The calls of [list_stations]: the clock, the calls of the reference
    point, then nothing, or the query of the store, or the query and the
    clock. *)
Lemma list_stations_calls (s : state) :
  exists evs rest,
    calls (list_stations config args) s = ClockRead :: evs ++ rest /\
    Forall no_find evs /\
    (rest = [] \/
     exists where_ projection limit,
       rest = [StoreFind where_ projection limit] \/
       rest = [StoreFind where_ projection limit; ClockRead]) /\
    (forall response,
       fst (list_stations config args s) = Ok response ->
       exists where_ projection limit,
         rest = [StoreFind where_ projection limit; ClockRead]).
Proof.
  destruct (quiet_reference_point args (emit ClockRead s)) as (evs & Ht & Hq).
  simpl in Ht.
  assert (Hearly : forall r s1,
            list_stations config args s = (Raise r, s1) ->
            trace s1 = trace s ++ ClockRead :: evs ->
            exists evs rest,
              calls (list_stations config args) s = ClockRead :: evs ++ rest /\
              Forall no_find evs /\
              (rest = [] \/
               exists where_ projection limit,
                 rest = [StoreFind where_ projection limit] \/
                 rest = [StoreFind where_ projection limit; ClockRead]) /\
              (forall response,
                 fst (list_stations config args s) = Ok response ->
                 exists where_ projection limit,
                   rest = [StoreFind where_ projection limit; ClockRead])).
  { intros r s1 Hrun Htr. exists evs, []. rewrite app_nil_r.
    split; [apply calls_app; now rewrite Hrun|].
    split; [exact Hq|]. split; [now left|].
    intros response Hok. rewrite Hrun in Hok. discriminate. }
  destruct (station_keys_shape args) as (keys & Hkeys & _).
  destruct (reference_point args (emit ClockRead s)) as [[at_|e] s1] eqn:Href.
  2:{ apply (Hearly e s1).
      - unfold list_stations, mbind, M_bind, time, lift.
        now rewrite Hkeys, Href.
      - simpl in Ht. now rewrite Ht, <- app_assoc. }
  simpl in Ht.
  destruct (build_where config args at_) as [w|e] eqn:Hwhere.
  2:{ apply (Hearly e s1).
      - unfold list_stations, mbind, M_bind, time, lift.
        now rewrite Hkeys, Href, Hwhere.
      - now rewrite Ht, <- app_assoc. }
  destruct (safe_limit config args "LIST_LIMIT" "LIST_DEFAULT_COUNT" "limit")
    as [limit|e] eqn:Hlimit.
  2:{ apply (Hearly e s1).
      - unfold list_stations, mbind, M_bind, time, lift.
        now rewrite Hkeys, Href, Hwhere, Hlimit.
      - now rewrite Ht, <- app_assoc. }
  clear Hearly.
  pose proof (list_stations_run config args s s1 keys at_ w limit
                Hkeys Href Hwhere Hlimit) as Hrun. simpl in Hrun.
  set (query := StoreFind (VDict w) (VDict (projection_of keys)) limit) in *.
  destruct (records ← store_find (VDict w) (VDict (projection_of keys)) limit;
            stations_of (keys ++ ["prices"; "distance"]) at_ records)
    as [stations|e].
  - exists evs, [query; ClockRead].
    split; [apply calls_app; rewrite Hrun; simpl;
            now rewrite Ht, <- !app_assoc|].
    split; [exact Hq|]. split; [right; unfold query; eauto|].
    intros _ _. unfold query. eauto.
  - exists evs, [query].
    split; [apply calls_app; rewrite Hrun; simpl;
            now rewrite Ht, <- !app_assoc|].
    split; [exact Hq|]. split; [right; unfold query; eauto|].
    intros response Hok. rewrite Hrun in Hok. discriminate.
Qed.

(** X17. One request, at most one query of the store: [list_stations]
    reads the clock first, never queries the store twice, and a request
    that returns a response has made exactly one query, followed only by
    the second reading of the clock. *)
Theorem one_store_query_per_request (s : state) :
  (exists later, calls (list_stations config args) s = ClockRead :: later) /\
  (count_events is_store_find (calls (list_stations config args) s) <= 1)%nat
  /\
  (forall response,
     fst (list_stations config args s) = Ok response ->
     count_events is_store_find (calls (list_stations config args) s)
       = 1%nat /\
     exists before where_ projection limit,
       calls (list_stations config args) s =
       before ++ [StoreFind where_ projection limit; ClockRead]).
Proof.
  destruct (list_stations_calls s) as (evs & rest & Hcalls & Hq & Hrest & Hok).
  rewrite Hcalls. split; [eauto|].
  change (ClockRead :: evs ++ rest) with ([ClockRead] ++ evs ++ rest).
  rewrite !count_events_app, (count_quiet evs Hq). split.
  - destruct Hrest as [->|(w & p & n & [->| ->])]; cbn; lia.
  - intros response Hresp. destruct (Hok response Hresp) as (w & p & n & ->).
    split; [reflexivity|].
    exists ([ClockRead] ++ evs), w, p, n. now rewrite <- app_assoc.
Qed.

End Calls.

Lemma one_store_query_per_request_witness :
  count_events is_store_find
    (calls (list_stations (H := Sample.world) Sample.config
              [("prices", "diesel"); ("at", "14.5,46.05")]) Sample.idle)
  = 1%nat.
Proof.
  destruct sample_priced_run as (response & s' & Hrun).
  refine (proj1 (proj2 (proj2 (one_store_query_per_request
            (H := Sample.world) Sample.config
            [("prices", "diesel"); ("at", "14.5,46.05")] Sample.idle))
            response _)).
  now rewrite Hrun.
Defined.

(** ** Configuration, reference point and distance beyond the claims *)

(** X18. [app.config] always holds the four bounds, so the clamps never
    fail for a missing one: with the configuration of lines 18-24, whatever
    the environment and the request, [safe_limit] on the list keys and
    [safe_distance] return an integer or raise [ValueError] (a text that is
    not an integer), never [TypeError]. *)
Theorem clamps_find_their_bounds `{Externals}
    (environ : gmap string string) (args : list (string * string)) :
  app_config environ !! "LIST_LIMIT"
    = Some (getenv environ "LIST_LIMIT" "50") /\
  app_config environ !! "LIST_DEFAULT_COUNT"
    = Some (getenv environ "LIST_DEFAULT_COUNT" "10") /\
  app_config environ !! "DISTANCE_LIMIT"
    = Some (getenv environ "DISTANCE_LIMIT" "50000") /\
  app_config environ !! "DISTANCE_DEFAULT"
    = Some (getenv environ "DISTANCE_DEFAULT" "10000") /\
  ((exists n, safe_limit (app_config environ) args
                "LIST_LIMIT" "LIST_DEFAULT_COUNT" "limit" = Ok n) \/
   safe_limit (app_config environ) args
     "LIST_LIMIT" "LIST_DEFAULT_COUNT" "limit" = Raise ValueError) /\
  ((exists n, safe_distance (app_config environ) args = Ok n) \/
   safe_distance (app_config environ) args = Raise ValueError).
Proof.
  assert (Hll : app_config environ !! "LIST_LIMIT"
                = Some (getenv environ "LIST_LIMIT" "50"))
    by (unfold app_config; now simplify_map_eq).
  assert (Hld : app_config environ !! "LIST_DEFAULT_COUNT"
                = Some (getenv environ "LIST_DEFAULT_COUNT" "10"))
    by (unfold app_config; now simplify_map_eq).
  assert (Hdl : app_config environ !! "DISTANCE_LIMIT"
                = Some (getenv environ "DISTANCE_LIMIT" "50000"))
    by (unfold app_config; now simplify_map_eq).
  assert (Hdd : app_config environ !! "DISTANCE_DEFAULT"
                = Some (getenv environ "DISTANCE_DEFAULT" "10000"))
    by (unfold app_config; now simplify_map_eq).
  assert (Hclamp : forall key default_key query_param ceiling default,
            app_config environ !! key = Some ceiling ->
            app_config environ !! default_key = Some default ->
            (exists n, safe_limit (app_config environ) args
                         key default_key query_param = Ok n) \/
            safe_limit (app_config environ) args
              key default_key query_param = Raise ValueError).
  { intros key default_key query_param ceiling default Hc Hd.
    unfold safe_limit. rewrite Hc, Hd.
    destruct (args_get args query_param) as [v|]; simpl.
    - destruct (py_int v) as [n|]; simpl; [|now right].
      destruct (py_int ceiling) as [c|]; simpl; [|now right].
      left. destruct (n <? c)%Z; eauto.
    - destruct (py_int default) as [n|]; simpl; [|now right].
      destruct (py_int ceiling) as [c|]; simpl; [|now right].
      left. destruct (n <? c)%Z; eauto. }
  repeat split; try assumption.
  - exact (Hclamp _ _ _ _ _ Hll Hld).
  - exact (Hclamp _ _ _ _ _ Hdl Hdd).
Qed.

Lemma commas_have_no_token (raw : string) :
  only_commas raw = true ->
  List.filter (fun n => negb (String.eqb n "")) (Str.split "," raw) = [].
Proof.
  induction raw as [|c raw IH]; simpl; [reflexivity|].
  intros Hc. apply andb_true_iff in Hc as [Hc Hraw].
  rewrite Hc. simpl. now apply IH.
Qed.

(** X19. Empty tokens of [at] are skipped, so an [at] made of commas
    only, like the empty one, resolves to no reference point when [near] is
    absent or empty: no error, no outside call, no geospatial clause. *)
Theorem commas_only_at_is_no_point `{Externals}
    (config : gmap string string) (args : list (string * string))
    (s : state) (raw_at : string) :
  args_get args "at" = Some raw_at ->
  only_commas raw_at = true ->
  args_get args "near" = None \/ args_get args "near" = Some "" ->
  parse_at args = Ok (VList []) /\
  reference_point args s = (Ok (VList []), s) /\
  build_where config args (VList []) = Ok [("company", VStr "petrol")].
Proof.
  intros Hat Hcommas Hnear.
  assert (Hparse : parse_at args = Ok (VList [])).
  { unfold parse_at. rewrite Hat.
    now rewrite (commas_have_no_token raw_at Hcommas). }
  split; [exact Hparse|]. split; [|reflexivity].
  unfold reference_point, mbind, M_bind, lift. rewrite Hparse.
  now destruct Hnear as [-> | ->].
Qed.

Lemma commas_only_at_is_no_point_witness :
  reference_point (H := Sample.world) [("near", ""); ("at", ",,")]
    Sample.idle = (Ok (VList []), Sample.idle).
Proof.
  exact (proj1 (proj2 (commas_only_at_is_no_point (H := Sample.world)
           Sample.config [("near", ""); ("at", ",,")] Sample.idle ",,"
           eq_refl eq_refl (or_intror eq_refl)))).
Defined.

(** X20. [compute_distance] changes the [distance] field and nothing
    else: a returned station has a float at [distance], every other field
    as before, and distinct keys if it had them; the field is overwritten in
    place when the station already has one and added last otherwise. *)
Theorem compute_distance_only_sets_distance `{Externals}
    (station out : Dict.t value) (at_ : value) :
  compute_distance station at_ = Ok out ->
  (exists metres, Dict.get out "distance" = Some (VFloat metres)) /\
  (forall k, k <> "distance" -> Dict.get out k = Dict.get station k) /\
  (Dict.wf station -> Dict.wf out) /\
  (("distance" ∈ Dict.keys station /\ Dict.keys out = Dict.keys station) \/
   (~ "distance" ∈ Dict.keys station /\
    Dict.keys out = Dict.keys station ++ ["distance"])).
Proof.
  unfold compute_distance. intros Hd.
  repeat match type of Hd with
         | context [mbind _ ?r] => destruct r; simpl in Hd; [|discriminate]
         end.
  injection Hd as <-.
  split; [eexists; apply get_set_eq|].
  split; [intros k Hk; now apply get_set_ne|].
  split; [apply wf_set|].
  clear. induction station as [|[k v] station IH]; simpl.
  - right. split; [apply not_elem_of_nil|reflexivity].
  - destruct (String.eqb_spec k "distance") as [->|Hne]; simpl.
    + left. split; [apply list_elem_of_here|reflexivity].
    + destruct IH as [[Hin Hk]|[Hnin Hk]].
      * left. split; [now apply list_elem_of_further|now rewrite Hk].
      * right. split; [|now rewrite Hk].
        rewrite elem_of_cons. intros [Heq|Hin]; [congruence|contradiction].
Qed.

Lemma compute_distance_only_sets_distance_witness :
  exists out metres,
    compute_distance (H := Sample.world)
      [("loc", VDict [("type", VStr "Point");
                      ("coordinates", VList [VFloat 14.5; VFloat 46.05])]);
       ("distance", VStr "stale"); ("key", VStr "s1")]
      Sample.ljubljana = Ok out /\
    Dict.get out "distance" = Some (VFloat metres) /\
    Dict.keys out = ["loc"; "distance"; "key"] /\
    Dict.get out "key" = Some (VStr "s1").
Proof.
  destruct (compute_distance (H := Sample.world)
      [("loc", VDict [("type", VStr "Point");
                      ("coordinates", VList [VFloat 14.5; VFloat 46.05])]);
       ("distance", VStr "stale"); ("key", VStr "s1")]
      Sample.ljubljana) as [out|e] eqn:Hd; [|discriminate Hd].
  destruct (compute_distance_only_sets_distance (H := Sample.world) _ _ _ Hd)
    as ([metres Hm] & Hother & _ & [[_ Hkeys]|[Hnin _]]).
  - exists out, metres. split; [reflexivity|]. split; [exact Hm|].
    split; [exact Hkeys|]. now rewrite Hother.
  - exfalso. apply Hnin. apply list_elem_of_further, list_elem_of_here.
Defined.

(** X21. One attempt per call: [geocode] asks the geocoder at most once
    and writes the cache at most once, whatever the flag, the cache and the
    reply; it never writes without having asked, and a hit asks nothing. *)
Theorem geocode_single_attempt `{Externals} (address : string)
    (cache : bool) (http_timeout : R) (expire_ttl : Z) (s : state) :
  let run := geocode address cache http_timeout expire_ttl in
  (count_events is_geocoder_call (calls run s) <= 1)%nat /\
  (count_events is_redis_set (calls run s)
   <= count_events is_geocoder_call (calls run s))%nat /\
  (cache = true ->
   (exists v, redis s !! ("address:" ++ slugify address)%string = Some v) ->
   count_events is_geocoder_call (calls run s) = 0%nat).
Proof.
  intros run.
  set (key := ("address:" ++ slugify address)%string).
  assert (Hcases :
    calls run s = [GeocoderGet address] \/
    calls run s = [RedisGet key; RedisExpire key expire_ttl] \/
    calls run s = [RedisGet key; GeocoderGet address] \/
    exists raw, calls run s = [RedisGet key; GeocoderGet address;
                               RedisSet key (dumps raw) expire_ttl]).
  { destruct cache.
    - destruct (redis s !! key) as [[v remaining]|] eqn:Hentry.
      + right. left. apply calls_app.
        unfold run. now rewrite (geocode_hit _ _ _ _ _ _ Hentry).
      + destruct (geocoder address) as [reply|e] eqn:Hreply.
        * destruct (raw_location_of reply) as [raw|e] eqn:Hraw.
          -- right. right. right. exists raw. apply calls_app. unfold run.
             now rewrite (geocode_miss _ _ _ _ _ _ Hentry Hreply Hraw).
          -- right. right. left.
             apply (geocode_failed_miss_run _ _ _ _ Hentry).
             intros reply' raw Hr. rewrite Hreply in Hr.
             injection Hr as <-. now rewrite Hraw.
        * right. right. left.
          apply (geocode_failed_miss_run _ _ _ _ Hentry).
          intros reply' raw Hr. rewrite Hreply in Hr. discriminate.
    - left. apply geocode_uncached_run. }
  assert (Hhit : cache = true -> (exists v, redis s !! key = Some v) ->
                 calls run s = [RedisGet key; RedisExpire key expire_ttl]).
  { intros -> [[v remaining] Hentry]. apply calls_app.
    unfold run. now rewrite (geocode_hit _ _ _ _ _ _ Hentry). }
  split; [|split].
  - destruct Hcases as [-> | [-> | [-> | [raw ->]]]]; cbn; lia.
  - destruct Hcases as [-> | [-> | [-> | [raw ->]]]]; cbn; lia.
  - intros Hc Hv. now rewrite (Hhit Hc Hv).
Qed.

(** X22. [maxDistance] is read only when there is a reference point:
    without one a [maxDistance] that is not an integer goes unnoticed and
    the filter is the base filter; with one it raises [ValueError]. *)
Theorem malformed_radius_needs_a_point `{Externals}
    (config : gmap string string) (args : list (string * string))
    (raw_radius : string) (at_ : value) :
  args_get args "maxDistance" = Some raw_radius ->
  py_int raw_radius = None ->
  (truthy at_ = false ->
   build_where config args at_ = Ok [("company", VStr "petrol")]) /\
  (truthy at_ = true ->
   build_where config args at_ = Raise ValueError).
Proof.
  intros Hraw Hbad. unfold build_where. split; intros ->; [reflexivity|].
  unfold safe_distance, safe_limit. rewrite Hraw. simpl. now rewrite Hbad.
Qed.

Lemma malformed_radius_needs_a_point_witness :
  build_where (H := Sample.world) Sample.config [("maxDistance", "far")]
    (VList []) = Ok [("company", VStr "petrol")] /\
  build_where (H := Sample.world) Sample.config [("maxDistance", "far")]
    Sample.ljubljana = Raise ValueError.
Proof.
  destruct (malformed_radius_needs_a_point (H := Sample.world) Sample.config
              [("maxDistance", "far")] "far" (VList []) eq_refl eq_refl)
    as [Hnone _].
  destruct (malformed_radius_needs_a_point (H := Sample.world) Sample.config
              [("maxDistance", "far")] "far" Sample.ljubljana eq_refl eq_refl)
    as [_ Hpoint].
  split; [exact (Hnone eq_refl)|exact (Hpoint eq_refl)].
Defined.

(** X23. [near] takes the place of [at]: two requests with the same
    non-empty [near] resolve the same reference point with the same calls,
    whatever their [at] parameters are, provided these parse. *)
Theorem near_overrides_at `{Externals} (args args' : list (string * string))
    (near : string) (at0 at1 : value) (s : state) :
  args_get args "near" = Some near ->
  args_get args' "near" = Some near ->
  near <> "" ->
  parse_at args = Ok at0 ->
  parse_at args' = Ok at1 ->
  reference_point args s = reference_point args' s /\
  reference_point args s = geocode near true (1 / 10)%R 86400 s.
Proof.
  intros Hn Hn' Hne Hp Hp'.
  assert (Ht : truthy (VStr near) = true).
  { simpl. destruct (String.eqb_spec near ""); [contradiction|easy]. }
  unfold reference_point, mbind, M_bind, lift.
  now rewrite Hp, Hp', Hn, Hn', Ht.
Qed.

Lemma near_overrides_at_witness :
  reference_point (H := Sample.world)
    [("near", "Ljubljana"); ("at", "1,2")] Sample.idle
  = reference_point (H := Sample.world) [("near", "Ljubljana")] Sample.idle.
Proof.
  assert (Hp : exists at0,
            parse_at (H := Sample.world)
              [("near", "Ljubljana"); ("at", "1,2")] = Ok at0)
    by (eexists; reflexivity).
  destruct Hp as [at0 Hp].
  exact (proj1 (near_overrides_at (H := Sample.world)
           [("near", "Ljubljana"); ("at", "1,2")] [("near", "Ljubljana")]
           "Ljubljana" at0 (VList []) Sample.idle eq_refl eq_refl
           ltac:(discriminate) Hp eq_refl)).
Defined.

Lemma geocode_single_attempt_witness :
  let s := State {["address:Ljubljana" := ("[14.5, 46.05]", 7%Z)]} [] in
  count_events is_geocoder_call
    (calls (geocode (H := Sample.world) "Ljubljana" true (1 / 10)%R 86400) s)
  = 0%nat.
Proof.
  intros s.
  exact (proj2 (proj2 (geocode_single_attempt (H := Sample.world) "Ljubljana"
                         true (1 / 10)%R 86400 s))
               eq_refl (ex_intro _ ("[14.5, 46.05]", 7%Z) eq_refl)).
Defined.

(** ** What reaches the response of a projecting store (C2, C7) *)






Section Reaches.

Context `{Externals}.
Variable config : gmap string string.
Variable args : list (string * string).

(** The [prices] mapping of a record of the store is, in the response,
    the array of [enrich_prices]. *)
Lemma response_prices_enriched (s s' : state) (response : value) :
  list_stations config args s = (Ok response, s') ->
  exists keys where_ limit records stations elapsed,
    station_keys args = Ok keys /\
    store_find (VDict where_) (VDict (projection_of keys)) limit
      = Ok records /\
    response = VDict [("status", VStr "ok");
                      ("stations", VList (map VDict stations));
                      ("executed_in", VFloat elapsed)] /\
    Forall2 (fun record station =>
               Dict.wf record ->
               forall d, Dict.get record "prices" = Some (VDict d) ->
                 enrich_prices (VDict d) =
                   Ok (VList (map (fun '(k, v) =>
                                     VDict [("type", VStr k); ("price", v)])
                                  (unslugify_dict d))) /\
                 Dict.get station "prices" =
                   Some (VList (map (fun '(k, v) =>
                                       VDict [("type", VStr k); ("price", v)])
                                    (unslugify_dict d))))
            records stations.
Proof.
  intros Hrun.
  apply list_stations_ok in Hrun
    as (keys & at_ & s1 & w & limit & records & stations & elapsed &
        Hkeys & _ & _ & _ & Hfind & Hst & ->).
  exists keys, w, limit, records, stations, elapsed.
  split; [exact Hkeys|]. split; [exact Hfind|]. split; [reflexivity|].
  apply stations_of_each in Hst.
  eapply Forall2_impl; [exact Hst|].
  intros record station (shaped & Hshaped & Hdist) Hwf d Hget.
  split; [reflexivity|].
  assert (Hprices : Dict.get shaped "prices" =
            Some (VList (map (fun '(k, v) =>
                                VDict [("type", VStr k); ("price", v)])
                             (unslugify_dict d)))).
  { destruct (simple_station_fields _ _ _ _ Hwf Hshaped) as [_ Hfields].
    apply Hfields. exists (VDict d). split; [exact Hget|].
    split; [|reflexivity].
    unfold kept. apply orb_true_iff. right. apply mem_elem_of.
    rewrite elem_of_app, !elem_of_cons. tauto. }
  destruct (truthy at_).
  - unfold compute_distance in Hdist.
    repeat match type of Hdist with
           | context [mbind _ ?r] =>
               destruct r; simpl in Hdist; [|discriminate]
           end.
    injection Hdist as <-. rewrite get_set_ne; [exact Hprices|discriminate].
  - now subst station.
Qed.


End Reaches.


(** A request for two prices in the sample world, run to its response. *)
Lemma sample_two_prices_response :
  exists elapsed s',
    list_stations (H := Sample.world) Sample.config
      [("prices", "diesel,super_95")] Sample.idle
    = (Ok (VDict
             [("status", VStr "ok");
              ("stations",
               VList (map VDict
                 [[("key", VStr "petrol-ljubljana-1");
                   ("loc", VDict [("type", VStr "Point");
                                  ("coordinates",
                                   VList [VFloat 14.5; VFloat 46.05])]);
                   ("address", VStr "Celovska 1");
                   ("updated_at", VStr "2016-08-01T10:00:00+00:00");
                   ("prices",
                    VList [VDict [("type", VStr "diesel");
                                  ("price", VFloat 1.05)];
                           VDict [("type", VStr "super_95");
                                  ("price", VFloat 1.2)]]);
                   ("scraped_url", VStr "http://petrol.si/1")]]));
              ("executed_in", VFloat elapsed)]), s').
Proof. do 2 eexists. vm_compute. reflexivity. Qed.


(** C7: a request with a [prices] parameter asks the store for the five
    plain fields and for one [prices.<token>] field per token, underscores
    written as hyphens, and not for the bare [prices] field; and in the
    response of [list_stations] every record that came back with a [prices]
    mapping has the [prices] array that [enrich_prices] builds from that
    mapping. *)
Theorem prices_parameter_narrows_projection `{Externals}
    (config : gmap string string) (args : list (string * string))
    (prices : string) :
  args_get args "prices" = Some prices ->
  prices <> "" ->
  let keys := ["key"; "loc"; "address"; "updated_at"; "scraped_url"] ++
              map price_field (Str.split "," prices) in
  (forall s where_ projection limit,
     StoreFind where_ projection limit ∈ calls (list_stations config args) s ->
     projection = VDict (projection_of keys)) /\
  Dict.wf (projection_of keys) /\
  (forall p, p ∈ Str.split "," prices ->
             price_field p ∈ Dict.keys (projection_of keys)) /\
  (forall k, k ∈ Dict.keys (projection_of keys) ->
             k ∈ ["key"; "loc"; "address"; "updated_at"; "scraped_url"] \/
             exists p, p ∈ Str.split "," prices /\ k = price_field p) /\
  ~ "prices" ∈ Dict.keys (projection_of keys) /\
  (forall s s' response,
     list_stations config args s = (Ok response, s') ->
     exists where_ limit records stations elapsed,
       store_find (VDict where_) (VDict (projection_of keys)) limit
         = Ok records /\
       response = VDict [("status", VStr "ok");
                         ("stations", VList (map VDict stations));
                         ("executed_in", VFloat elapsed)] /\
       Forall2 (fun record station =>
                  Dict.wf record ->
                  forall d, Dict.get record "prices" = Some (VDict d) ->
                    enrich_prices (VDict d) =
                      Ok (VList (map (fun '(k, v) =>
                                        VDict [("type", VStr k);
                                               ("price", v)])
                                     (unslugify_dict d))) /\
                    Dict.get station "prices" =
                      Some (VList (map (fun '(k, v) =>
                                          VDict [("type", VStr k);
                                                 ("price", v)])
                                       (unslugify_dict d))))
               records stations).
Proof.
  intros Hp Hne keys.
  destruct (prices_projection_facts config args prices Hp Hne)
    as (Hquery & Hwf & Hin & Hall & Hbare & _).
  fold keys in Hquery, Hwf, Hin, Hall, Hbare.
  split; [exact Hquery|]. split; [exact Hwf|]. split; [exact Hin|].
  split; [exact Hall|]. split; [exact Hbare|].
  intros s s' response Hrun.
  destruct (response_prices_enriched config args s s' response Hrun)
    as (keys' & w & limit & records & stations & elapsed &
        Hkeys & Hfind & Hresp & Henriched).
  rewrite (station_keys_prices args prices Hp Hne) in Hkeys.
  injection Hkeys as <-.
  exists w, limit, records, stations, elapsed.
  split; [exact Hfind|]. split; [exact Hresp|exact Henriched].
Qed.

Lemma prices_parameter_narrows_projection_witness :
  let args := [("prices", "diesel,super_95")] in
  args_get args "prices" = Some "diesel,super_95" /\
  (forall s where_ projection limit,
     StoreFind where_ projection limit
       ∈ calls (list_stations (H := Sample.world) Sample.config args) s ->
     projection =
     VDict [("key", VInt 1); ("loc", VInt 1); ("address", VInt 1);
            ("updated_at", VInt 1); ("scraped_url", VInt 1);
            ("prices.diesel", VInt 1); ("prices.super-95", VInt 1)]) /\
  exists records stations elapsed,
    fst (list_stations (H := Sample.world) Sample.config args Sample.idle)
    = Ok (VDict [("status", VStr "ok");
                 ("stations", VList (map VDict stations));
                 ("executed_in", VFloat elapsed)]) /\
    Forall2 (fun record station =>
               Dict.wf record ->
               forall d, Dict.get record "prices" = Some (VDict d) ->
                 Dict.get station "prices" =
                   Some (VList (map (fun '(k, v) =>
                                       VDict [("type", VStr k); ("price", v)])
                                    (unslugify_dict d))))
            records stations.
Proof.
  intros args.
  destruct (prices_parameter_narrows_projection (H := Sample.world)
              Sample.config args "diesel,super_95" eq_refl
              ltac:(discriminate))
    as (Hquery & _ & _ & _ & _ & Hresponse).
  split; [reflexivity|]. split; [exact Hquery|].
  destruct sample_two_prices_response as (elapsed & s' & Hrun).
  destruct (Hresponse _ _ _ Hrun)
    as (w & limit & records & stations & elapsed' & _ & Hresp & Henriched).
  exists records, stations, elapsed'. unfold args. rewrite Hrun.
  split; [simpl; now f_equal|].
  eapply Forall2_impl; [exact Henriched|].
  intros record station Hrec Hwf d Hget. exact (proj2 (Hrec Hwf d Hget)).
Defined.
